(** * Evaluation helpers of the SKU classifier: [utils.py]

    A shallow embedding of the three helpers of [utils.py]:
    [cross_category_bleeding], [graphviz_cross_category_diagram] and
    [char_by_char_classification_plot].

    Numbers.  The arrays of the program hold [float64] values.  They are
    modelled here by exact rationals ([Q]), compared up to [Qeq]: counts
    are small integers and quotients of small integers, and every statement
    below is about the exact value the float computation approximates.

    Failures.  Python exceptions are explicit: a computation returns
    [Ok v] or [Error e].  A [float64] division by zero does not raise in
    numpy (it warns and yields a non-finite value); as [Q] has no such
    value it is reported as the outcome [FloatDivideByZero].

    Library version.  [cross_category_bleeding] hands [np.stack] a
    generator expression.  numpy before 1.25 accepts it (from 1.16 on with
    a warning); numpy 1.25 and later raise [TypeError].  The version is a
    parameter of the model, [numpy_version].

    Labels.  The renderer multiplies an entry by [100.0], compares the
    product with 0 and formats it.  These three operations are the
    interface [Number]; its instance for [float] is IEEE binary64, what
    the program computes on a numpy array, and its instance for [Q] is
    exact arithmetic, used to render the matrices of the exact model. *)

From Stdlib Require Import Floats.
From Stdlib Require Import Ascii String DecimalString DecimalNat.
From Stdlib Require Import List Arith ZArith QArith Lia Bool Permutation FinFun.
Import ListNotations.

Set Implicit Arguments.

(** ** Results of fallible computations *)

Inductive exn : Type :=
| IndexError
| ValueError
| ZeroDivisionError
| FloatDivideByZero
| TypeError.

Inductive result (A : Type) : Type :=
| Ok (v : A)
| Error (e : exn).

Arguments Ok {A} v.
Arguments Error {A} e.

Definition bind {A B : Type} (c : result A) (k : A -> result B) : result B :=
  match c with
  | Ok v => k v
  | Error e => Error e
  end.

Notation "x <- c ;; k" := (bind c (fun x => k))
  (at level 61, c at next level, right associativity).

(** Left-to-right traversal that stops at the first failure: a list
    comprehension or generator whose body can raise. *)
Fixpoint mapM {A B : Type} (f : A -> result B) (l : list A) : result (list B) :=
  match l with
  | [] => Ok []
  | a :: t => b <- f a ;; bs <- mapM f t ;; Ok (b :: bs)
  end.

(** A [for] loop over [l] that threads the state [s] and can raise. *)
Fixpoint foldM {A S : Type} (f : S -> A -> result S) (l : list A) (s : S)
  : result S :=
  match l with
  | [] => Ok s
  | a :: t => s' <- f s a ;; foldM f t s'
  end.

(** ** The numpy operations the program calls *)

Definition matrix : Type := list (list Q).

(** A two-dimensional label array: numpy keeps the shape next to the data,
    so an array with no row still has a column count. *)
Record ndarray2 : Type := mk_ndarray2 {
  shape1 : nat;
  rows : list (list Q)
}.

Definition wf_ndarray2 (a : ndarray2) : Prop :=
  Forall (fun r => length r = shape1 a) (rows a).

(** [np.zeros((n, m))] *)
Definition np_zeros (n m : nat) : matrix := repeat (repeat 0%Q m) n.

(** [np.argmax]: one scan that keeps the running maximum and replaces it
    only by a strictly larger value; raises on an empty vector. *)
Fixpoint argmax_from (best : Q) (besti i : nat) (l : list Q) : nat :=
  match l with
  | [] => besti
  | v :: t =>
      match Qcompare best v with
      | Lt => argmax_from v i (S i) t
      | _ => argmax_from best besti (S i) t
      end
  end.

Definition np_argmax (l : list Q) : result nat :=
  match l with
  | [] => Error ValueError
  | v :: t => Ok (argmax_from v 0 1 t)
  end.

(** [np.sum] of a one-dimensional array *)
Definition np_sum (a : list Q) : Q := fold_right Qplus 0%Q a.

(** [r.flatten()] *)
Definition flatten (r : matrix) : list Q := concat r.

Fixpoint chunks (k n : nat) (l : list Q) : list (list Q) :=
  match n with
  | O => []
  | S n' => firstn k l :: chunks k n' (skipn k l)
  end.

(** [np.split(ary, sections)] with an integer [sections]: numpy first tests
    [len(ary) % sections], which raises for [sections = 0], and refuses a
    division that is not even. *)
Definition np_split (ary : list Q) (sections : nat) : result (list (list Q)) :=
  match sections with
  | O => Error ZeroDivisionError
  | S _ =>
      if (length ary mod sections =? 0)%nat
      then Ok (chunks (length ary / sections) sections ary)
      else Error ValueError
  end.

(** [np.stack] of a sequence of rows: at least one row, all of one length. *)
Definition np_stack (parts : list (list Q)) : result matrix :=
  match parts with
  | [] => Error ValueError
  | p :: _ =>
      if forallb (fun q => (length q =? length p)%nat) parts
      then Ok parts
      else Error ValueError
  end.

(** The numpy the program runs on, as far as the program can tell: whether
    [np.stack] still takes an iterable that is not a sequence. *)
Inductive numpy_version : Type :=
| numpy_before_1_25
| numpy_from_1_25.

(** [np.stack] called on a generator.  numpy 1.25 and later refuse it
    before the generator is run; earlier versions run it and stack the
    rows. *)
Definition np_stack_generator (np : numpy_version)
    (gen : result (list (list Q))) : result matrix :=
  match np with
  | numpy_before_1_25 => normed <- gen ;; np_stack normed
  | numpy_from_1_25 => Error TypeError
  end.

(** Truth value of a number in [if v]. *)
Definition truthy (v : Q) : bool := negb (Qeq_bool v 0).

(** [v / s] on [float64]. *)
Definition np_divide (v s : Q) : result Q :=
  if Qeq_bool s 0 then Error FloatDivideByZero else Ok (v / s)%Q.

(** [xs[i]] for a non-negative index. *)
Definition getitem {A : Type} (xs : list A) (i : nat) : result A :=
  match nth_error xs i with
  | Some v => Ok v
  | None => Error IndexError
  end.

Fixpoint setitem {A : Type} (xs : list A) (i : nat) (v : A) : list A :=
  match xs, i with
  | [], _ => []
  | _ :: t, O => v :: t
  | a :: t, S i' => a :: setitem t i' v
  end.

(** ** [cross_category_bleeding] *)

(** [r[i][j] += 1]: both indexings are bounds-checked. *)
Definition incr (r : matrix) (i j : nat) : result matrix :=
  row <- getitem r i ;;
  v <- getitem row j ;;
  Ok (setitem r i (setitem row j (v + 1)%Q)).

(** [zip(x_test, y_test, preds)]: stops with the shortest sequence. *)
Fixpoint zip3 {A B C : Type} (xs : list A) (ys : list B) (zs : list C)
  : list (A * B * C) :=
  match xs, ys, zs with
  | x :: xs', y :: ys', z :: zs' => (x, y, z) :: zip3 xs' ys' zs'
  | _, _, _ => []
  end.

(** The entry [v/np.sum(a) if v else 0] of the row [a]. *)
Definition normalize_entry (a : list Q) (v : Q) : result Q :=
  if truthy v then np_divide v (np_sum a) else Ok 0%Q.

(** The returned expression: split the flattened counts into [cat_count]
    rows, normalize each entry, stack the rows. *)
Definition normalize (np : numpy_version) (r : matrix) (cat_count : nat)
  : result matrix :=
  parts <- np_split (flatten r) cat_count ;;
  np_stack_generator np (mapM (fun a => mapM (normalize_entry a) a) parts).

Section Classifier.

(** The element type of an input sequence, and the classifier: [predict]
    maps a batch of inputs to one probability vector per input. *)
Variable X : Type.
Variable predict : list (list X) -> list (list Q).

(** Body of the accumulation loop for one example. *)
Definition count_step (r : matrix) (ex : list X * list Q * list Q)
  : result matrix :=
  let '(_, y, pred) := ex in
  class_being_tested <- np_argmax y ;;
  class_predicted <- np_argmax pred ;;
  incr r class_being_tested class_predicted.

(** The examples the loop visits. *)
Definition examples (x_test : list (list X)) (y_test : ndarray2)
  : list (list X * list Q * list Q) :=
  zip3 x_test (rows y_test) (predict x_test).

(** The raw count matrix at the end of the loop. *)
Definition count_matrix (x_test : list (list X)) (y_test : ndarray2)
  : result matrix :=
  let cat_count := shape1 y_test in
  foldM count_step (examples x_test y_test) (np_zeros cat_count cat_count).

Definition cross_category_bleeding (np : numpy_version)
    (x_test : list (list X)) (y_test : ndarray2) (batch_size : Z)
  : result matrix :=
  let cat_count := shape1 y_test in
  r <- count_matrix x_test y_test ;;
  normalize np r cat_count.

(** *** The rows of [char_by_char_classification_plot]

    [step_preds] is the list the loop of the function fills; pandas turns
    it into a table and draws the chart, neither of which is modelled. *)

(** [[np.array(x[:i]) for i in range(1, len(x))]] *)
Definition x_steps (x : list X) : list (list X) :=
  map (fun i => firstn i x) (seq 1 (length x - 1)).

(** [enumerate] *)
Definition enumerate {A : Type} (l : list A) : list (nat * A) :=
  combine (seq 0 (length l)) l.

(** [partnum[i] if i < len(partnum) else ''] *)
Definition step_char (partnum : string) (i : nat) : result string :=
  if (i <? String.length partnum)%nat
  then match String.get i partnum with
       | Some ch => Ok (String ch EmptyString)
       | None => Error IndexError
       end
  else Ok EmptyString.

(** One iteration: the row appended for the prefix [x_step]. *)
Definition plot_step (partnum : string)
    (step_preds : list (string * list Q)) (ix : nat * list X)
  : result (list (string * list Q)) :=
  let '(i, x_step) := ix in
  c <- step_char partnum i ;;
  let pred := predict [x_step] in
  Ok (step_preds ++ [(c, concat pred)]).

Definition step_preds (partnum : string) (x : list X)
  : result (list (string * list Q)) :=
  foldM (plot_step partnum) (enumerate (x_steps x)) [].

End Classifier.

(** ** [graphviz_cross_category_diagram] *)

(** Decimal rendering of a non-negative integer by [str.format]. *)
Definition str (n : nat) : string := NilEmpty.string_of_uint (Nat.to_uint n).

(** A graphviz graph is the list of its statements, in the order of the
    calls to [node] and [edge]. *)
Inductive stmt : Type :=
| Node (name label : string)
| Edge (tail head label : string).

Definition Digraph : Type := list stmt.

Definition graph_node (g : Digraph) (name label : string) : Digraph :=
  g ++ [Node name label].

Definition graph_edge (g : Digraph) (tail head label : string) : Digraph :=
  g ++ [Edge tail head label].

Definition nodes (g : Digraph) : list (string * string) :=
  flat_map (fun s => match s with
                     | Node n l => [(n, l)]
                     | Edge _ _ _ => []
                     end) g.

Definition edges (g : Digraph) : list (string * string * string) :=
  flat_map (fun s => match s with
                     | Node _ _ => []
                     | Edge t h l => [(t, h, l)]
                     end) g.

(** Nearest integer, ties to the even one. *)
Definition round_half_even (q : Q) : Z :=
  let n := Qnum q in
  let d := Zpos (Qden q) in
  let f := (n / d)%Z in
  match (2 * (n mod d) ?= d)%Z with
  | Lt => f
  | Gt => (f + 1)%Z
  | Eq => if Z.even f then f else (f + 1)%Z
  end.

Definition digit (n : nat) : ascii := ascii_of_nat (48 + n).

Definition digits3 (n : nat) : string :=
  String (digit (n / 100))
    (String (digit ((n / 10) mod 10)) (String (digit (n mod 10)) EmptyString)).

(** ['{:.3f}'.format(x)] for a number [x] of exact value [q]: sign,
    integer part, a point and three digits of the value rounded to a
    multiple of 1/1000, ties to even. *)
Definition format_3f (q : Q) : string :=
  let t := Z.abs (round_half_even (q * 1000)) in
  ((if (Qnum q <? 0)%Z then "-" else "")
   ++ str (Z.to_nat (t / 1000)) ++ "." ++ digits3 (Z.to_nat (t mod 1000)))%string.

(** *** The numbers of a matrix

    What the renderer does with an entry: [v * 100.0], [acc > 0] and
    ['{:.3f}'.format(acc)]. *)
Class Number (N : Type) : Type := {
  times100 : N -> N;
  gt0 : N -> bool;
  format_3f_of : N -> string
}.

(** The exact value of a finite binary64 number of sign [s], mantissa [m]
    and exponent [e]. *)
Definition SF2Q (s : bool) (m : BinNums.positive) (e : Z) : Q :=
  let n := if s then Zneg m else Zpos m in
  match e with
  | Z0 => inject_Z n
  | Zpos p => inject_Z (n * 2 ^ Zpos p)
  | Zneg p => Qmake n (2 ^ p)
  end.

(** ['{:.3f}'.format(x)] for a [float]: Python rounds the exact value of
    the binary number, and writes [inf] and [nan] without digits. *)
Definition format_3f_float (x : float) : string :=
  match Prim2SF x with
  | S754_nan => "nan"
  | S754_infinity s => if s then "-inf" else "inf"
  | S754_zero s => if s then "-0.000" else "0.000"
  | S754_finite s m e => format_3f (SF2Q s m e)
  end.

(** IEEE binary64, the numbers of a numpy array. *)
#[export] Instance float_number : Number float := {|
  times100 := fun v => PrimFloat.mul v 100;
  gt0 := fun acc => PrimFloat.ltb 0 acc;
  format_3f_of := format_3f_float
|}.

(** ['{:.3f}%'.format(acc)] *)
Definition format_pct {N : Type} {num : Number N} (acc : N) : string :=
  (format_3f_of acc ++ "%")%string.

Definition node_name (c : nat) : string := ("C" ++ str c)%string.

(** [class_labels[c] if len(class_labels) > c else 'Category {}'.format(c)] *)
Definition label (class_labels : list string) (c : nat) : result string :=
  if (c <? length class_labels)%nat
  then getitem class_labels c
  else Ok ("Category " ++ str c)%string.

(** [acc > 0] in exact arithmetic *)
Definition positive (acc : Q) : bool := negb (Qle_bool acc 0).

(** Exact arithmetic, the numbers of the matrices of the exact model.  A
    label computed here is the label the program prints only where the
    binary64 product is exact, as it is for the entries 0 and 1; the
    statements about labels in general are made with [float_number]. *)
#[export] Instance Q_number : Number Q := {|
  times100 := fun v => (v * 100)%Q;
  gt0 := positive;
  format_3f_of := format_3f
|}.

(** Body of the inner loop. *)
Definition edge_step {N : Type} {num : Number N} (res_matrix : list (list N))
    (true_c : nat) (graph : Digraph) (pred_c : nat) : result Digraph :=
  row <- getitem res_matrix true_c ;;
  v <- getitem row pred_c ;;
  let acc := times100 v in
  if gt0 acc
  then Ok (graph_edge graph (node_name true_c) (node_name pred_c)
             (format_pct acc))
  else Ok graph.

(** Body of the outer loop. *)
Definition row_step {N : Type} {num : Number N} (res_matrix : list (list N))
    (class_labels : list string) (graph : Digraph) (true_c : nat)
  : result Digraph :=
  l <- label class_labels true_c ;;
  let graph := graph_node graph (node_name true_c) l in
  preds <- getitem res_matrix true_c ;;
  foldM (edge_step res_matrix true_c) (seq 0 (length preds)) graph.

Definition graphviz_cross_category_diagram {N : Type} {num : Number N}
    (res_matrix : list (list N)) (class_labels : list string)
  : result Digraph :=
  foldM (row_step res_matrix class_labels) (seq 0 (length res_matrix)) [].

(** ** Notions used in the statements *)

(** Equality of matrices entry by entry, as rational numbers. *)
Definition mat_eq (m1 m2 : matrix) : Prop := Forall2 (Forall2 Qeq) m1 m2.



(** A square matrix of dimension [c]. *)
Definition square (c : nat) (m : matrix) : Prop :=
  length m = c /\ Forall (fun row => length row = c) m.

Definition nonneg (m : matrix) : Prop :=
  Forall (Forall (fun v => (0 <= v)%Q)) m.

(** [i] is the lowest index at which [l] attains its maximum. *)
Definition first_max (l : list Q) (i : nat) : Prop :=
  exists m,
    nth_error l i = Some m /\
    (forall j v, nth_error l j = Some v -> (v <= m)%Q) /\
    (forall j v, (j < i)%nat -> nth_error l j = Some v -> (v < m)%Q).

(** The number of entries of a matrix that are strictly positive. *)
Definition count_positive {N : Type} {num : Number N} (m : list (list N))
  : nat :=
  length (filter gt0 (concat m)).

(** The outcome is one of the two reports of a division by zero. *)
Definition division_by_zero {A : Type} (r : result A) : Prop :=
  r = Error ZeroDivisionError \/ r = Error FloatDivideByZero.

(** The value of a normalized row when no division fails. *)
Definition normalized_row (a : list Q) : list Q :=
  map (fun v => if truthy v then (v / np_sum a)%Q else 0%Q) a.

(** The true category of an example is [i]. *)
Definition true_category {X : Type} (i : nat)
    (ex : list X * list Q * list Q) : Prop :=
  np_argmax (snd (fst ex)) = Ok i.

Definition true_categoryb {X : Type} (i : nat)
    (ex : list X * list Q * list Q) : bool :=
  match np_argmax (snd (fst ex)) with
  | Ok k => (k =? i)%nat
  | Error _ => false
  end.

(** The number of examples whose true category is [i]. *)
Definition true_count {X : Type} (i : nat)
    (exs : list (list X * list Q * list Q)) : nat :=
  length (filter (true_categoryb i) exs).

(** Both categories of an example exist and are below [c]. *)
Definition in_range {X : Type} (c : nat)
    (ex : list X * list Q * list Q) : Prop :=
  exists i j,
    np_argmax (snd (fst ex)) = Ok i /\ np_argmax (snd ex) = Ok j /\
    (i < c)%nat /\ (j < c)%nat.


(** The statements of a finished diagram, row by row. *)
Fixpoint row_edges {N : Type} {num : Number N} (true_c pred_c : nat)
    (vs : list N) : list stmt :=
  match vs with
  | [] => []
  | v :: t =>
      (if gt0 (times100 v)
       then [Edge (node_name true_c) (node_name pred_c)
               (format_pct (times100 v))]
       else [])
      ++ row_edges true_c (S pred_c) t
  end.

Definition label_of (class_labels : list string) (c : nat) : string :=
  match nth_error class_labels c with
  | Some l => l
  | None => ("Category " ++ str c)%string
  end.

Fixpoint graph_rows {N : Type} {num : Number N}
    (class_labels : list string) (true_c : nat) (rs : list (list N))
  : list stmt :=
  match rs with
  | [] => []
  | row :: t =>
      Node (node_name true_c) (label_of class_labels true_c)
      :: row_edges true_c 0 row ++ graph_rows class_labels (S true_c) t
  end.

(** The labels of the edges of [g] from node [t] to node [h]. *)
Definition edges_between (g : Digraph) (t h : string) : list string :=
  map snd
    (filter (fun e => (String.eqb (fst (fst e)) t
                       && String.eqb (snd (fst e)) h)%bool) (edges g)).

(** The label of the edge an entry produces. *)
Definition entry_edge {N : Type} {num : Number N} (v : N) : list string :=
  if gt0 (times100 v) then [format_pct (times100 v)] else [].

Definition is_digit (c : ascii) : bool :=
  ((48 <=? nat_of_ascii c) && (nat_of_ascii c <=? 57))%nat.

(** The character of [partnum] at [i] as a string, empty past the end. *)
Definition char_or_empty (partnum : string) (i : nat) : string :=
  match String.get i partnum with
  | Some ch => String ch EmptyString
  | None => EmptyString
  end.

(** ** Concrete inputs *)

(** Two categories and four examples whose (true, predicted) categories
    are (0,0), (0,1), (1,1), (1,1). *)
Definition scenario_x : list (list nat) := [[1]; [2]; [3]; [4]]%nat.

Definition scenario_y : ndarray2 :=
  mk_ndarray2 2 [[1; 0]; [1; 0]; [0; 1]; [0; 1]].

Definition scenario_predict (_ : list (list nat)) : list (list Q) :=
  [[1; 0]; [0; 1]; [0; 1]; [0; 1]].

(** A label array of two columns and no row. *)
Definition empty_y : ndarray2 := mk_ndarray2 2 [].

(** A classifier whose vectors are wider than the two label columns. *)
Definition wide_predict (xs : list (list nat)) : list (list Q) :=
  map (fun _ => [0; 0; 1]) xs.

Definition one_example_y : ndarray2 := mk_ndarray2 2 [[1; 0]].

(** A classifier that answers every input with the same two-way tie. *)
Definition uniform_predict (xs : list (list nat)) : list (list Q) :=
  map (fun _ => [1 # 2; 1 # 2]) xs.

(** Two examples, one of each category, and a classifier that is right on
    both. *)
Definition perfect_x : list (list nat) := [[1]; [2]]%nat.

Definition perfect_y : ndarray2 := mk_ndarray2 2 [[1; 0]; [0; 1]].

Definition perfect_predict (_ : list (list nat)) : list (list Q) :=
  [[9 # 10; 1 # 10]; [2 # 10; 8 # 10]].

(** ** Notions used in the further properties *)

(** The entry of a matrix at row [k], column [l], when there is one. *)
Definition entry (r : matrix) (k l : nat) : option Q :=
  match nth_error r k with
  | Some row => nth_error row l
  | None => None
  end.

(** The loop counts the example at row [i], column [j]. *)
Definition pair_isb {X : Type} (i j : nat)
    (ex : list X * list Q * list Q) : bool :=
  match np_argmax (snd (fst ex)), np_argmax (snd ex) with
  | Ok a, Ok b => ((i =? a) && (j =? b))%nat
  | _, _ => false
  end.

(** The number of examples of true category [i] predicted as [j]. *)
Definition pair_count {X : Type} (i j : nat)
    (exs : list (list X * list Q * list Q)) : nat :=
  length (filter (pair_isb i j) exs).

(** The table of all pair counts. *)
Definition counts_table {X : Type} (c : nat)
    (exs : list (list X * list Q * list Q)) : matrix :=
  map (fun i => map (fun j => inject_Z (Z.of_nat (pair_count i j exs)))
                 (seq 0 c))
    (seq 0 c).

(** The identity matrix. *)
Definition np_eye (c : nat) : matrix :=
  map (fun i => map (fun j => if (i =? j)%nat then 1 else 0) (seq 0 c))
    (seq 0 c).

(** The prediction of an example agrees with its label. *)
Definition correct {X : Type} (ex : list X * list Q * list Q) : Prop :=
  np_argmax (snd ex) = np_argmax (snd (fst ex)).

(** The edge a fully correct category gets: a loop labelled 100%. *)
Definition self_loop (i : nat) : string * string * string :=
  (node_name i, node_name i, "100.000%"%string).

(** The predicted vector of an example is not empty and no wider than [c]. *)
Definition fits {X : Type} (c : nat) (ex : list X * list Q * list Q) : Prop :=
  snd ex <> [] /\ (length (snd ex) <= c)%nat.

(** * Proofs *)

Unset Implicit Arguments.

(** ** Results *)

Lemma bind_Ok {A B : Type} (c : result A) (k : A -> result B) (b : B) :
  bind c k = Ok b -> exists a, c = Ok a /\ k a = Ok b.
Proof.
  destruct c as [a|e]; simpl; intros H; [eauto | discriminate].
Qed.

Ltac inv_bind H :=
  let a := fresh "a" in
  let Ha := fresh "Ha" in
  apply bind_Ok in H; destruct H as (a & Ha & H).

Ltac split_and := repeat match goal with |- _ /\ _ => split end.

Lemma getitem_Ok {A : Type} (xs : list A) (i : nat) (v : A) :
  getitem xs i = Ok v <-> nth_error xs i = Some v.
Proof.
  unfold getitem. destruct (nth_error xs i); split; intros H;
    inversion H; reflexivity.
Qed.

Lemma getitem_lt {A : Type} (xs : list A) (i : nat) :
  (i < length xs)%nat -> exists v, getitem xs i = Ok v /\ nth_error xs i = Some v.
Proof.
  intros H. unfold getitem.
  destruct (nth_error xs i) as [v|] eqn:E; [eauto|].
  apply nth_error_None in E. lia.
Qed.

(** ** Lists updated in place *)

Lemma setitem_length {A : Type} (xs : list A) (i : nat) (v : A) :
  length (setitem xs i v) = length xs.
Proof.
  revert i. induction xs as [|a t IH]; intros [|i]; simpl; auto.
Qed.

Lemma setitem_same {A : Type} (xs : list A) (i : nat) (v : A) :
  (i < length xs)%nat -> nth_error (setitem xs i v) i = Some v.
Proof.
  revert i. induction xs as [|a t IH]; intros [|i]; simpl; intros H;
    try lia; auto. apply IH. lia.
Qed.

Lemma setitem_other {A : Type} (xs : list A) (i k : nat) (v : A) :
  i <> k -> nth_error (setitem xs i v) k = nth_error xs k.
Proof.
  revert i k. induction xs as [|a t IH]; intros [|i] [|k]; simpl; intros H;
    auto; try congruence.
Qed.

Lemma setitem_Forall {A : Type} (P : A -> Prop) (xs : list A) (i : nat) (v : A) :
  Forall P xs -> P v -> Forall P (setitem xs i v).
Proof.
  intros Hxs Hv. revert i.
  induction Hxs as [|a t Ha Ht IH]; intros [|i]; simpl; auto.
Qed.

(** ** Sums of rows *)

Lemma np_sum_setitem (row : list Q) (j : nat) (v w : Q) :
  nth_error row j = Some v ->
  np_sum (setitem row j w) == np_sum row - v + w.
Proof.
  revert j. induction row as [|a t IH]; intros [|j]; simpl; intros H;
    try discriminate.
  - injection H as ->. ring.
  - rewrite (IH _ H). ring.
Qed.

Lemma np_sum_repeat_zero (n : nat) : np_sum (repeat 0 n) == 0.
Proof.
  induction n as [|n IH]; simpl; [reflexivity|]. rewrite IH. ring.
Qed.

Lemma np_sum_nonneg (a : list Q) :
  Forall (fun v => 0 <= v) a -> 0 <= np_sum a.
Proof.
  induction 1 as [|v t Hv Ht IH]; simpl.
  - apply Qle_refl.
  - replace 0 with (0 + 0) by reflexivity. apply Qplus_le_compat; assumption.
Qed.

Lemma np_sum_ge_entry (a : list Q) (v : Q) :
  Forall (fun v => 0 <= v) a -> In v a -> v <= np_sum a.
Proof.
  induction 1 as [|w t Hw Ht IH]; simpl; intros Hin; [contradiction|].
  destruct Hin as [->|Hin].
  - rewrite <- (Qplus_0_r v) at 1. apply Qplus_le_compat.
    + apply Qle_refl.
    + apply np_sum_nonneg; assumption.
  - rewrite <- (Qplus_0_l v). apply Qplus_le_compat; auto.
Qed.

Lemma np_sum_Forall2 (a b : list Q) :
  Forall2 Qeq a b -> np_sum a == np_sum b.
Proof.
  induction 1 as [|x y a b Hxy Hab IH]; simpl; [reflexivity|].
  rewrite Hxy, IH. reflexivity.
Qed.

Lemma np_sum_map_div (a : list Q) (s : Q) :
  np_sum (map (fun v => v / s) a) == np_sum a / s.
Proof.
  induction a as [|v t IH]; simpl.
  - unfold Qdiv. ring.
  - rewrite IH. unfold Qdiv. ring.
Qed.

(** ** The accumulation loop *)

Lemma np_zeros_square (c : nat) : square c (np_zeros c c).
Proof.
  unfold square, np_zeros. split.
  - apply repeat_length.
  - apply Forall_forall. intros row Hrow.
    apply repeat_spec in Hrow. subst row. apply repeat_length.
Qed.

Lemma np_zeros_nonneg (n m : nat) : nonneg (np_zeros n m).
Proof.
  unfold nonneg, np_zeros. apply Forall_forall. intros row Hrow.
  apply repeat_spec in Hrow. subst row.
  apply Forall_forall. intros v Hv. apply repeat_spec in Hv. subst v.
  apply Qle_refl.
Qed.

Lemma np_zeros_row (n m i : nat) (row : list Q) :
  nth_error (np_zeros n m) i = Some row -> row = repeat 0 m.
Proof.
  intros H. apply nth_error_In in H. exact (repeat_spec _ _ _ H).
Qed.

(** What one successful increment does to the matrix. *)
Lemma incr_Ok (c : nat) (r r' : matrix) (i j : nat) :
  incr r i j = Ok r' -> square c r -> nonneg r ->
  (i < c)%nat /\ (j < c)%nat /\ square c r' /\ nonneg r' /\
  (forall k row', nth_error r' k = Some row' ->
     exists row, nth_error r k = Some row /\
       np_sum row' == np_sum row + (if (k =? i)%nat then 1 else 0)).
Proof.
  unfold incr. intros H [Hlen Hrows] Hnn.
  inv_bind H. rename a into row. inv_bind H. rename a into v.
  injection H as <-.
  apply getitem_Ok in Ha, Ha0.
  assert (Hi : (i < length r)%nat) by (apply nth_error_Some; congruence).
  assert (Hj : (j < length row)%nat) by (apply nth_error_Some; congruence).
  assert (Hrow : length row = c).
  { rewrite Forall_forall in Hrows. apply Hrows.
    eapply nth_error_In; eassumption. }
  assert (Hrownn : Forall (fun v => 0 <= v) row).
  { unfold nonneg in Hnn. rewrite Forall_forall in Hnn. apply Hnn.
    eapply nth_error_In; eassumption. }
  assert (Hv : 0 <= v).
  { rewrite Forall_forall in Hrownn. apply Hrownn.
    eapply nth_error_In; eassumption. }
  split_and.
  - lia.
  - lia.
  - split; [rewrite setitem_length; exact Hlen|].
    apply setitem_Forall; [assumption|]. rewrite setitem_length. exact Hrow.
  - apply setitem_Forall; [assumption|].
    apply setitem_Forall; [assumption|].
    replace 0 with (0 + 0) by reflexivity.
    apply Qplus_le_compat; [assumption | discriminate].
  - intros k row' Hk.
    destruct (Nat.eqb_spec k i) as [->|Hne].
    + rewrite setitem_same in Hk by assumption. injection Hk as <-.
      exists row. split; [assumption|].
      rewrite (np_sum_setitem row j v (v + 1) Ha0). ring.
    + rewrite setitem_other in Hk by congruence.
      exists row'. split; [assumption|]. ring.
Qed.

Section Accumulation.

Variable X : Type.
Variable c : nat.

Lemma count_step_Ok (r r' : matrix) (ex : list X * list Q * list Q) :
  count_step r ex = Ok r' ->
  exists i j,
    np_argmax (snd (fst ex)) = Ok i /\ np_argmax (snd ex) = Ok j /\
    incr r i j = Ok r'.
Proof.
  destruct ex as [[x y] pred]. unfold count_step. simpl. intros H.
  inv_bind H. inv_bind H. eauto.
Qed.

(** The loop keeps the matrix square and non-negative, and adds to the
    sum of row [k] the number of examples whose true category is [k]. *)
Lemma foldM_count_step (exs : list (list X * list Q * list Q)) :
  forall r r',
    foldM (@count_step X) exs r = Ok r' -> square c r -> nonneg r ->
    square c r' /\ nonneg r' /\ Forall (in_range c) exs /\
    (forall k row', nth_error r' k = Some row' ->
       exists row, nth_error r k = Some row /\
         np_sum row' == np_sum row + inject_Z (Z.of_nat (true_count k exs))).
Proof.
  induction exs as [|ex exs IH]; simpl; intros r r' H Hsq Hnn.
  - injection H as <-. split_and; auto.
    intros k row' Hk. exists row'. split; [assumption|].
    unfold true_count. simpl. ring.
  - inv_bind H. rename a into r1.
    destruct (count_step_Ok _ _ _ Ha) as (i & j & Hi & Hj & Hincr).
    destruct (incr_Ok _ _ _ _ _ Hincr Hsq Hnn) as (Hic & Hjc & Hsq1 & Hnn1 & Hsum1).
    destruct (IH _ _ H Hsq1 Hnn1) as (Hsq' & Hnn' & Hrange & Hsum').
    split_and; auto.
    + constructor; [|assumption]. exists i, j. auto.
    + intros k row' Hk.
      destruct (Hsum' _ _ Hk) as (row1 & Hk1 & E').
      destruct (Hsum1 _ _ Hk1) as (row & Hk0 & E1).
      exists row. split; [assumption|].
      rewrite E', E1. unfold true_count, true_categoryb. simpl.
      rewrite Hi.
      destruct (Nat.eqb_spec i k) as [->|Hne].
      * rewrite Nat.eqb_refl. simpl length.
        rewrite Nat2Z.inj_succ, <- Z.add_1_l, inject_Z_plus. ring.
      * replace (k =? i)%nat with false
          by (symmetry; apply Nat.eqb_neq; congruence).
        ring.
Qed.

(** Without an out-of-range category the loop runs to its end. *)
Lemma foldM_count_step_total (exs : list (list X * list Q * list Q)) :
  forall r, square c r -> nonneg r -> Forall (in_range c) exs ->
    exists r', foldM (@count_step X) exs r = Ok r'.
Proof.
  induction exs as [|ex exs IH]; simpl; intros r Hsq Hnn Hall.
  - eauto.
  - inversion Hall as [|? ? (i & j & Hi & Hj & Hic & Hjc) Hall']; subst.
    destruct ex as [[x y] pred]. simpl in Hi, Hj.
    assert (Hincr : exists r1, incr r i j = Ok r1).
    { unfold incr. destruct Hsq as [Hlen Hrows].
      destruct (getitem_lt r i) as (row & -> & Hrow); [lia|]. simpl.
      assert (Hl : length row = c).
      { rewrite Forall_forall in Hrows. apply Hrows.
        eapply nth_error_In; eassumption. }
      destruct (getitem_lt row j) as (v & -> & _); [lia|]. simpl. eauto. }
    destruct Hincr as (r1 & Hincr).
    unfold count_step. rewrite Hi, Hj. simpl. rewrite Hincr. simpl.
    destruct (incr_Ok _ _ _ _ _ Hincr Hsq Hnn) as (_ & _ & Hsq1 & Hnn1 & _).
    apply IH; assumption.
Qed.

Lemma true_count_zero (k : nat) (exs : list (list X * list Q * list Q)) :
  true_count k exs = 0%nat <-> ~ Exists (true_category k) exs.
Proof.
  unfold true_count. induction exs as [|ex exs IH]; simpl.
  - split; [intros _ H; inversion H | reflexivity].
  - unfold true_categoryb at 1, true_category at 1.
    destruct (np_argmax (snd (fst ex))) as [i|e] eqn:E.
    + destruct (Nat.eqb_spec i k) as [->|Hne]; simpl.
      * split; [discriminate|]. intros H. exfalso. apply H.
        left. unfold true_category. assumption.
      * rewrite IH. split; intros H H'.
        -- inversion H' as [? ? Hex|? ? Hex]; subst; [|auto].
           unfold true_category in Hex. congruence.
        -- apply H. right. assumption.
    + rewrite IH. split; intros H H'.
      * inversion H' as [? ? Hex|? ? Hex]; subst; [|auto].
        unfold true_category in Hex. congruence.
      * apply H. right. assumption.
Qed.

End Accumulation.

(** ** The normalization *)

Lemma concat_length_rows (c : nat) (r : matrix) :
  Forall (fun row => length row = c) r ->
  length (concat r) = (length r * c)%nat.
Proof.
  induction 1 as [|row t Hrow Ht IH]; simpl; [reflexivity|].
  rewrite length_app, IH, Hrow. reflexivity.
Qed.

Lemma chunks_concat (c : nat) (r : matrix) :
  Forall (fun row => length row = c) r ->
  chunks c (length r) (concat r) = r.
Proof.
  induction 1 as [|row t Hrow Ht IH]; simpl; [reflexivity|].
  rewrite firstn_app, skipn_app, Hrow, Nat.sub_diag. simpl.
  rewrite <- Hrow, firstn_all, skipn_all, app_nil_r. simpl.
  rewrite Hrow, IH. reflexivity.
Qed.

(** Splitting the flattened square matrix gives its rows back. *)
Lemma np_split_flatten (c : nat) (r : matrix) :
  (0 < c)%nat -> square c r -> np_split (flatten r) c = Ok r.
Proof.
  intros Hc [Hlen Hrows]. unfold np_split, flatten.
  destruct c as [|c']; [lia|].
  rewrite (concat_length_rows _ _ Hrows), Hlen.
  rewrite Nat.Div0.mod_mul, Nat.div_mul by lia. simpl Nat.eqb. cbv iota.
  rewrite <- (chunks_concat _ _ Hrows) at 2. rewrite Hlen. reflexivity.
Qed.

Lemma truthy_true (v : Q) : truthy v = true <-> ~ v == 0.
Proof.
  unfold truthy. rewrite negb_true_iff, <- Qeq_bool_iff.
  destruct (Qeq_bool v 0); split; intros H; congruence.
Qed.

Lemma truthy_false (v : Q) : truthy v = false <-> v == 0.
Proof.
  unfold truthy. rewrite negb_false_iff. apply Qeq_bool_iff.
Qed.

(** In a non-negative row a non-zero entry makes the sum positive. *)
Lemma np_sum_pos (a : list Q) (v : Q) :
  Forall (fun v => 0 <= v) a -> In v a -> ~ v == 0 -> 0 < np_sum a.
Proof.
  intros Ha Hin Hv.
  assert (H0 : 0 <= v) by (rewrite Forall_forall in Ha; auto).
  apply Qlt_le_trans with v; [|apply np_sum_ge_entry; assumption].
  apply Qle_lteq in H0. destruct H0 as [H0|H0]; [assumption|].
  exfalso. apply Hv. symmetry. assumption.
Qed.

Lemma np_divide_Ok (v s : Q) : ~ s == 0 -> np_divide v s = Ok (v / s).
Proof.
  intros Hs. unfold np_divide.
  destruct (Qeq_bool s 0) eqn:E; [|reflexivity].
  apply Qeq_bool_iff in E. contradiction.
Qed.

(** No entry of a non-negative row divides by zero. *)
Lemma mapM_normalize_entry (a : list Q) :
  Forall (fun v => 0 <= v) a ->
  forall l, incl l a ->
    mapM (normalize_entry a) l
    = Ok (map (fun v => if truthy v then v / np_sum a else 0) l).
Proof.
  intros Ha. induction l as [|v t IH]; intros Hl; simpl; [reflexivity|].
  assert (Hv : In v a) by (apply Hl; left; reflexivity).
  rewrite IH by (intros w Hw; apply Hl; right; assumption).
  unfold normalize_entry. destruct (truthy v) eqn:Ev; [|reflexivity].
  rewrite np_divide_Ok; [reflexivity|].
  apply truthy_true in Ev. intros Hs.
  pose proof (np_sum_pos a v Ha Hv Ev) as Hpos.
  rewrite Hs in Hpos. exact (Qlt_irrefl 0 Hpos).
Qed.

Lemma mapM_normalize_rows (r : matrix) :
  nonneg r ->
  mapM (fun a => mapM (normalize_entry a) a) r = Ok (map normalized_row r).
Proof.
  induction 1 as [|a t Ha Ht IH]; simpl; [reflexivity|].
  rewrite (mapM_normalize_entry a Ha a (incl_refl a)), IH. reflexivity.
Qed.

Lemma np_stack_Ok (c : nat) (parts : list (list Q)) :
  parts <> [] -> Forall (fun row => length row = c) parts ->
  np_stack parts = Ok parts.
Proof.
  intros Hne Hall. unfold np_stack. destruct parts as [|p t]; [congruence|].
  assert (Hp : length p = c) by (inversion Hall; assumption).
  replace (forallb _ (p :: t)) with true; [reflexivity|].
  symmetry. apply forallb_forall. intros q Hq.
  rewrite Forall_forall in Hall. rewrite (Hall q Hq), Hp.
  apply Nat.eqb_refl.
Qed.

Lemma normalized_row_length (a : list Q) :
  length (normalized_row a) = length a.
Proof. unfold normalized_row. apply length_map. Qed.

(** On a square non-negative matrix the returned expression evaluates
    without failure, to the rows normalized one by one. *)
Lemma normalize_Ok (c : nat) (r : matrix) :
  (0 < c)%nat -> square c r -> nonneg r ->
  normalize numpy_before_1_25 r c = Ok (map normalized_row r).
Proof.
  intros Hc Hsq Hnn. unfold normalize.
  rewrite (np_split_flatten c r Hc Hsq). simpl.
  rewrite (mapM_normalize_rows r Hnn). simpl.
  destruct Hsq as [Hlen Hrows].
  apply np_stack_Ok with c.
  - destruct r; simpl in *; [lia | discriminate].
  - rewrite Forall_forall in *. intros row Hin.
    apply in_map_iff in Hin. destruct Hin as (a & <- & Ha).
    rewrite normalized_row_length. auto.
Qed.

Lemma normalize_zero_sections (np : numpy_version) (r : matrix) :
  normalize np r 0 = Error ZeroDivisionError.
Proof. reflexivity. Qed.

(** From numpy 1.25 on the stacking of the rows is refused. *)
Lemma normalize_refused (c : nat) (r : matrix) :
  (0 < c)%nat -> square c r ->
  normalize numpy_from_1_25 r c = Error TypeError.
Proof.
  intros Hc Hsq. unfold normalize.
  rewrite (np_split_flatten c r Hc Hsq). reflexivity.
Qed.

(** When the return expression evaluates to a matrix, the numpy is one
    that accepts the generator, there is at least one category, and the
    matrix holds the rows normalized one by one. *)
Lemma normalize_inv (np : numpy_version) (c : nat) (r m : matrix) :
  square c r -> nonneg r -> normalize np r c = Ok m ->
  np = numpy_before_1_25 /\ (0 < c)%nat /\ m = map normalized_row r.
Proof.
  intros Hsq Hnn H. destruct c as [|c'].
  - rewrite normalize_zero_sections in H. discriminate.
  - destruct np.
    + rewrite normalize_Ok in H by (assumption || lia). injection H as <-.
      split_and; auto. lia.
    + rewrite normalize_refused in H by (assumption || lia). discriminate.
Qed.

(** A non-negative row whose sum is zero is zero, and stays so. *)
Lemma normalized_row_zero_sum (a : list Q) :
  Forall (fun v => 0 <= v) a -> np_sum a == 0 ->
  normalized_row a = map (fun _ => 0) a.
Proof.
  intros Ha Hs. unfold normalized_row. apply map_ext_in. intros v Hv.
  destruct (truthy v) eqn:Ev; [|reflexivity].
  apply truthy_true in Ev.
  pose proof (np_sum_pos a v Ha Hv Ev) as Hpos.
  rewrite Hs in Hpos. destruct (Qlt_irrefl 0 Hpos).
Qed.

Lemma normalized_row_div (a : list Q) :
  Forall2 Qeq (normalized_row a) (map (fun v => v / np_sum a) a).
Proof.
  unfold normalized_row. generalize (np_sum a) as s. intros s.
  induction a as [|v t IH]; simpl; constructor; [|assumption].
  destruct (truthy v) eqn:Ev; [reflexivity|].
  apply truthy_false in Ev. rewrite Ev. unfold Qdiv. ring.
Qed.


(** A normalized row of positive sum is a probability distribution. *)
Lemma normalized_row_distribution (a : list Q) :
  Forall (fun v => 0 <= v) a -> 0 < np_sum a ->
  np_sum (normalized_row a) == 1 /\
  Forall (fun v => 0 <= v /\ v <= 1) (normalized_row a).
Proof.
  intros Ha Hpos.
  assert (Hne : ~ np_sum a == 0).
  { intros E. rewrite E in Hpos. exact (Qlt_irrefl 0 Hpos). }
  split.
  - rewrite (np_sum_Forall2 _ _ (normalized_row_div a)), np_sum_map_div.
    field. assumption.
  - unfold normalized_row. apply Forall_forall. intros w Hw.
    apply in_map_iff in Hw. destruct Hw as (v & <- & Hv).
    assert (H0 : 0 <= v) by (rewrite Forall_forall in Ha; auto).
    destruct (truthy v); [|split; discriminate].
    split.
    + apply Qle_shift_div_l; [assumption|]. rewrite Qmult_0_l. assumption.
    + apply Qle_shift_div_r; [assumption|]. rewrite Qmult_1_l.
      apply np_sum_ge_entry; assumption.
Qed.

(** ** The matrix of [cross_category_bleeding] *)

Lemma true_count_pos (X : Type) (k : nat)
    (exs : list (list X * list Q * list Q)) :
  true_count k exs <> 0%nat -> Exists (true_category k) exs.
Proof.
  unfold true_count. induction exs as [|ex exs IH]; simpl; [congruence|].
  unfold true_categoryb at 1.
  destruct (np_argmax (snd (fst ex))) as [i|e] eqn:E.
  - destruct (Nat.eqb_spec i k) as [->|Hne]; simpl; intros H.
    + left. exact E.
    + right. auto.
  - intros H. right. auto.
Qed.

Lemma inject_nat_pos (n : nat) : 0 < inject_Z (Z.of_nat (S n)).
Proof. unfold Qlt. simpl. lia. Qed.

(** The two halves of the function, when it returns. *)
Lemma cross_category_bleeding_Ok (X : Type)
    (predict : list (list X) -> list (list Q))
    (np : numpy_version) (x_test : list (list X))
    (y_test : ndarray2) (batch_size : Z) (m : matrix) :
  cross_category_bleeding predict np x_test y_test batch_size = Ok m ->
  exists r,
    count_matrix predict x_test y_test = Ok r /\
    square (shape1 y_test) r /\ nonneg r /\
    (0 < shape1 y_test)%nat /\ m = map normalized_row r /\
    (forall k a, nth_error r k = Some a ->
       np_sum a
       == inject_Z (Z.of_nat (true_count k (examples predict x_test y_test)))).
Proof.
  unfold cross_category_bleeding. intros H. inv_bind H. rename a into r.
  exists r. pose proof Ha as Hcount. unfold count_matrix in Ha.
  destruct (foldM_count_step X (shape1 y_test) _ _ _ Ha
              (np_zeros_square _) (np_zeros_nonneg _ _))
    as (Hsq & Hnn & _ & Hsum).
  destruct (normalize_inv np _ r m Hsq Hnn H) as (_ & Hc & ->).
  split_and; auto.
  intros k a Hk. destruct (Hsum k a Hk) as (row0 & Hk0 & E).
  apply np_zeros_row in Hk0. subst row0.
  rewrite E, np_sum_repeat_zero. ring.
Qed.

(** On a numpy that accepts the generator the function returns whenever
    the label array has a column and every category is in range. *)
Lemma cross_category_bleeding_total (X : Type)
    (predict : list (list X) -> list (list Q)) (x_test : list (list X))
    (y_test : ndarray2) (batch_size : Z) :
  (0 < shape1 y_test)%nat ->
  Forall (in_range (shape1 y_test)) (examples predict x_test y_test) ->
  exists r,
    count_matrix predict x_test y_test = Ok r /\
    cross_category_bleeding predict numpy_before_1_25 x_test y_test batch_size
    = Ok (map normalized_row r).
Proof.
  intros Hc Hall.
  destruct (foldM_count_step_total X (shape1 y_test) _ _
              (np_zeros_square _) (np_zeros_nonneg _ _) Hall) as (r & Hr).
  exists r. split; [exact Hr|].
  unfold cross_category_bleeding, count_matrix. rewrite Hr. simpl.
  destruct (foldM_count_step X (shape1 y_test) _ _ _ Hr
              (np_zeros_square _) (np_zeros_nonneg _ _))
    as (Hsq & Hnn & _).
  apply normalize_Ok; assumption.
Qed.

(** C1. Every row of a matrix returned by [cross_category_bleeding] either
    sums to 1 and is a probability distribution, or is all zero; the row of
    a category is all zero exactly when no visited example has that true
    category (exact arithmetic stands for the float computation). *)
Theorem cross_category_bleeding_rows (X : Type)
    (predict : list (list X) -> list (list Q))
    (np : numpy_version) (x_test : list (list X))
    (y_test : ndarray2) (batch_size : Z) (m : matrix) :
  cross_category_bleeding predict np x_test y_test batch_size = Ok m ->
  length m = shape1 y_test /\
  forall i row, nth_error m i = Some row ->
    (np_sum row == 1 /\ Forall (fun v => 0 <= v /\ v <= 1) row /\
     Exists (true_category i) (examples predict x_test y_test))
    \/
    (Forall (fun v => v == 0) row /\
     ~ Exists (true_category i) (examples predict x_test y_test)).
Proof.
  intros H.
  destruct (cross_category_bleeding_Ok _ _ _ _ _ _ _ H)
    as (r & _ & [Hlen Hrows] & Hnn & _ & -> & Hsum).
  split; [rewrite length_map; exact Hlen|].
  intros i row Hi. rewrite nth_error_map in Hi.
  destruct (nth_error r i) as [a|] eqn:Ea; [|discriminate].
  injection Hi as <-.
  assert (Ha : Forall (fun v => 0 <= v) a).
  { unfold nonneg in Hnn. rewrite Forall_forall in Hnn. apply Hnn.
    eapply nth_error_In; eassumption. }
  specialize (Hsum i a Ea).
  destruct (true_count i (examples predict x_test y_test)) as [|n] eqn:En.
  - right. split.
    + rewrite (normalized_row_zero_sum a Ha Hsum).
      apply Forall_forall. intros v Hv. apply in_map_iff in Hv.
      destruct Hv as (_ & <- & _). reflexivity.
    + apply true_count_zero. exact En.
  - left.
    assert (Hpos : 0 < np_sum a) by (rewrite Hsum; apply inject_nat_pos).
    destruct (normalized_row_distribution a Ha Hpos) as [H1 H2].
    split_and; auto.
    apply true_count_pos. rewrite En. discriminate.
Qed.



Lemma examples_empty (X : Type) (predict : list (list X) -> list (list Q))
    (x_test : list (list X)) (y_test : ndarray2) :
  x_test = [] \/ rows y_test = [] -> examples predict x_test y_test = [].
Proof.
  unfold examples. intros [-> | ->]; [reflexivity|].
  destruct x_test; reflexivity.
Qed.

Lemma normalized_zeros (c : nat) :
  map normalized_row (np_zeros c c) = np_zeros c c.
Proof.
  unfold np_zeros. rewrite map_repeat. f_equal.
  unfold normalized_row. rewrite map_repeat. reflexivity.
Qed.

(** What an empty test set gives, by numpy version, for a label array of
    at least one column. *)
Lemma empty_test_set_outcome (X : Type)
    (predict : list (list X) -> list (list Q))
    (np : numpy_version) (x_test : list (list X))
    (y_test : ndarray2) (batch_size : Z) :
  (0 < shape1 y_test)%nat ->
  x_test = [] \/ rows y_test = [] ->
  cross_category_bleeding predict np x_test y_test batch_size
  = match np with
    | numpy_before_1_25 => Ok (np_zeros (shape1 y_test) (shape1 y_test))
    | numpy_from_1_25 => Error TypeError
    end.
Proof.
  intros Hc Hempty. unfold cross_category_bleeding, count_matrix.
  rewrite (examples_empty X predict x_test y_test Hempty). simpl.
  destruct np.
  - rewrite normalize_Ok.
    + rewrite normalized_zeros. reflexivity.
    + assumption.
    + apply np_zeros_square.
    + apply np_zeros_nonneg.
  - apply normalize_refused; [assumption | apply np_zeros_square].
Qed.

(** C5, as the code has it. With no test example and a label array of at
    least one column, [cross_category_bleeding] causes no division by
    zero, on any numpy: the guard of each entry skips the division. *)
Theorem empty_test_set_zero_matrix (X : Type)
    (predict : list (list X) -> list (list Q))
    (np : numpy_version) (x_test : list (list X))
    (y_test : ndarray2) (batch_size : Z) :
  (0 < shape1 y_test)%nat ->
  x_test = [] \/ rows y_test = [] ->
  ~ division_by_zero
      (cross_category_bleeding predict np x_test y_test batch_size).
Proof.
  intros Hc Hempty.
  rewrite (empty_test_set_outcome X predict np x_test y_test batch_size
             Hc Hempty).
  destruct np; intros [H|H]; discriminate.
Qed.

(** C9. The argument [batch_size] has no effect on the result. *)
Theorem batch_size_noninterference (X : Type)
    (predict : list (list X) -> list (list Q))
    (np : numpy_version) (x_test : list (list X))
    (y_test : ndarray2) (batch_size1 batch_size2 : Z) :
  cross_category_bleeding predict np x_test y_test batch_size1
  = cross_category_bleeding predict np x_test y_test batch_size2.
Proof. reflexivity. Qed.

(** C1 at the two-category scenario. *)
Lemma cross_category_bleeding_rows_witness :
  cross_category_bleeding scenario_predict numpy_before_1_25 scenario_x scenario_y 32
  = Ok [[1 # 2; 1 # 2]; [0; 2 # 2]] /\
  length [[1 # 2; 1 # 2]; [0; 2 # 2]] = 2%nat.
Proof.
  split; [reflexivity|].
  exact (proj1 (cross_category_bleeding_rows nat scenario_predict
                  numpy_before_1_25 scenario_x scenario_y 32 _ eq_refl)).
Defined.



(** C5 as stated fails: with an empty test set and two label columns
    nothing is divided, on either numpy: one returns the zero matrix, the
    other raises [TypeError] at [np.stack]. *)
Lemma empty_test_set_counterexample :
  (cross_category_bleeding uniform_predict numpy_before_1_25 [] empty_y 32
   = Ok [[0; 0]; [0; 0]] /\
   ~ division_by_zero
       (cross_category_bleeding uniform_predict numpy_before_1_25 []
          empty_y 32)) /\
  (cross_category_bleeding uniform_predict numpy_from_1_25 [] empty_y 32
   = Error TypeError /\
   ~ division_by_zero
       (cross_category_bleeding uniform_predict numpy_from_1_25 []
          empty_y 32)).
Proof.
  split; (split; [reflexivity|]); intros [H|H]; discriminate H.
Qed.

Lemma empty_test_set_zero_matrix_witness :
  ~ division_by_zero
      (cross_category_bleeding uniform_predict numpy_before_1_25 []
         empty_y 32) /\
  ~ division_by_zero
      (cross_category_bleeding uniform_predict numpy_from_1_25 []
         empty_y 32).
Proof.
  split.
  - apply (empty_test_set_zero_matrix nat uniform_predict numpy_before_1_25
             [] empty_y 32).
    + simpl. lia.
    + left. reflexivity.
  - apply (empty_test_set_zero_matrix nat uniform_predict numpy_from_1_25
             [] empty_y 32).
    + simpl. lia.
    + left. reflexivity.
Defined.

(** With no label column at all it is [np.split] that divides by zero. *)
Lemma zero_columns_division_by_zero (X : Type)
    (predict : list (list X) -> list (list Q))
    (np : numpy_version) (x_test : list (list X))
    (y_test : ndarray2) (batch_size : Z) :
  shape1 y_test = 0%nat ->
  x_test = [] \/ rows y_test = [] ->
  cross_category_bleeding predict np x_test y_test batch_size
  = Error ZeroDivisionError.
Proof.
  intros Hc Hempty. unfold cross_category_bleeding, count_matrix.
  rewrite (examples_empty X predict x_test y_test Hempty), Hc. reflexivity.
Qed.





(** ** Bounds of the accumulation *)

Lemma normalized_square (c : nat) (r : matrix) :
  square c r -> square c (map normalized_row r).
Proof.
  intros [Hlen Hrows]. split; [rewrite length_map; exact Hlen|].
  rewrite Forall_forall in *. intros row Hin.
  apply in_map_iff in Hin. destruct Hin as (a & <- & Ha).
  rewrite normalized_row_length. auto.
Qed.

(** C10. The dimension of the matrix is the column count of [y_test],
    whatever the width of the predicted vectors; when both categories of
    every example are below that dimension the accumulation indexes within
    bounds and ends; and a classifier whose vectors are wider than [y_test]
    can index out of range. *)
Theorem count_matrix_bounds :
  (forall (X : Type) (predict : list (list X) -> list (list Q))
          (x_test : list (list X)) (y_test : ndarray2),
      (forall np batch_size m,
          cross_category_bleeding predict np x_test y_test batch_size = Ok m ->
          square (shape1 y_test) m) /\
      (Forall (in_range (shape1 y_test)) (examples predict x_test y_test) ->
       exists r, count_matrix predict x_test y_test = Ok r /\
                 square (shape1 y_test) r)) /\
  (wf_ndarray2 one_example_y /\
   count_matrix wide_predict [[7%nat]] one_example_y = Error IndexError).
Proof.
  split.
  - intros X predict x_test y_test. split.
    + intros np batch_size m H.
      destruct (cross_category_bleeding_Ok _ _ _ _ _ _ _ H)
        as (r & _ & Hsq & _ & _ & -> & _).
      apply normalized_square. assumption.
    + intros Hall.
      destruct (foldM_count_step_total X (shape1 y_test) _ _
                  (np_zeros_square _) (np_zeros_nonneg _ _) Hall) as (r & Hr).
      exists r. split; [exact Hr|].
      destruct (foldM_count_step X (shape1 y_test) _ _ _ Hr
                  (np_zeros_square _) (np_zeros_nonneg _ _)) as (Hsq & _).
      exact Hsq.
  - split; [|reflexivity].
    unfold wf_ndarray2. simpl. repeat constructor.
Qed.

Lemma scenario_in_range :
  Forall (in_range 2) (examples scenario_predict scenario_x scenario_y).
Proof.
  unfold in_range.
  repeat constructor; simpl;
    [ exists 0%nat, 0%nat | exists 0%nat, 1%nat
    | exists 1%nat, 1%nat | exists 1%nat, 1%nat ];
    split_and; (reflexivity || lia).
Defined.

Lemma count_matrix_bounds_witness :
  exists r, count_matrix scenario_predict scenario_x scenario_y = Ok r /\
            square 2 r.
Proof.
  exact (proj2 (proj1 count_matrix_bounds nat scenario_predict scenario_x
                  scenario_y) scenario_in_range).
Defined.

(** ** [np.argmax] *)

Lemma nth_error_snoc (pre : list Q) (v w : Q) (j : nat) :
  nth_error (pre ++ [v]) j = Some w ->
  ((j < length pre)%nat /\ nth_error pre j = Some w) \/
  (j = length pre /\ w = v).
Proof.
  intros H. destruct (Nat.lt_ge_cases j (length pre)) as [Hlt|Hge].
  - left. rewrite nth_error_app1 in H by assumption. auto.
  - right. rewrite nth_error_app2 in H by assumption.
    destruct (j - length pre)%nat as [|k] eqn:E; simpl in H.
    + injection H as <-. split; [lia | reflexivity].
    + destruct k; discriminate.
Qed.

(** The scan returns the lowest index of the maximum of all it has seen. *)
Lemma argmax_from_first_max (l : list Q) :
  forall (pre : list Q) (best : Q) (besti : nat),
    nth_error pre besti = Some best ->
    (forall j v, nth_error pre j = Some v -> v <= best) ->
    (forall j v, (j < besti)%nat -> nth_error pre j = Some v -> v < best) ->
    first_max (pre ++ l) (argmax_from best besti (length pre) l).
Proof.
  induction l as [|v t IH]; intros pre best besti Hbest Hle Hlt.
  - simpl. rewrite app_nil_r. exists best. auto.
  - assert (Hbi : (besti < length pre)%nat)
      by (apply nth_error_Some; congruence).
    assert (Hlen : length (pre ++ [v]) = S (length pre))
      by (rewrite length_app; simpl; lia).
    replace (pre ++ v :: t) with ((pre ++ [v]) ++ t)
      by (rewrite <- app_assoc; reflexivity).
    simpl. destruct (Qcompare_spec best v) as [Heq|Hlt'|Hgt];
      rewrite <- Hlen.
    + apply IH.
      * rewrite nth_error_app1 by assumption. exact Hbest.
      * intros j w Hj. apply nth_error_snoc in Hj.
        destruct Hj as [[_ Hj]|[_ ->]]; [eauto|].
        rewrite Heq. apply Qle_refl.
      * intros j w Hjb Hj. apply nth_error_snoc in Hj.
        destruct Hj as [[_ Hj]|[-> _]]; [eauto | lia].
    + apply IH.
      * rewrite nth_error_app2 by lia. rewrite Nat.sub_diag. reflexivity.
      * intros j w Hj. apply nth_error_snoc in Hj.
        destruct Hj as [[_ Hj]|[_ ->]]; [|apply Qle_refl].
        apply Qle_trans with best; [eauto | apply Qlt_le_weak; assumption].
      * intros j w Hjb Hj. apply nth_error_snoc in Hj.
        destruct Hj as [[_ Hj]|[-> _]]; [|lia].
        apply Qle_lt_trans with best; eauto.
    + apply IH.
      * rewrite nth_error_app1 by assumption. exact Hbest.
      * intros j w Hj. apply nth_error_snoc in Hj.
        destruct Hj as [[_ Hj]|[_ ->]]; [eauto|].
        apply Qlt_le_weak. assumption.
      * intros j w Hjb Hj. apply nth_error_snoc in Hj.
        destruct Hj as [[_ Hj]|[-> _]]; [eauto | lia].
Qed.

Lemma np_argmax_total (l : list Q) :
  l <> [] -> exists i, np_argmax l = Ok i /\ first_max l i.
Proof.
  destruct l as [|v t]; [congruence|]. intros _.
  exists (argmax_from v 0 1 t). split; [reflexivity|].
  apply (argmax_from_first_max t [v] v 0%nat).
  - reflexivity.
  - intros [|[|j]] w Hj; simpl in Hj; try discriminate.
    injection Hj as <-. apply Qle_refl.
  - intros j w Hj. lia.
Qed.

(** The lowest index of the maximum is unique. *)
Lemma first_max_unique (l : list Q) (i k : nat) :
  first_max l i -> first_max l k -> i = k.
Proof.
  intros (m & Hm & Hle & Hlt) (m' & Hm' & Hle' & Hlt').
  destruct (Nat.lt_trichotomy i k) as [H|[H|H]]; [|assumption|].
  - exfalso. pose proof (Hlt' i m H Hm) as H1.
    pose proof (Hle k m' Hm') as H2.
    exact (Qlt_irrefl m (Qlt_le_trans _ _ _ H1 H2)).
  - exfalso. pose proof (Hlt k m' H Hm') as H1.
    pose proof (Hle' i m Hm) as H2.
    exact (Qlt_irrefl m' (Qlt_le_trans _ _ _ H1 H2)).
Qed.

(** C7. For every example the loop of [cross_category_bleeding] counts,
    the true and the predicted category are the lowest indices at which
    the label vector and the predicted vector attain their maximum, also
    when the maximum occurs more than once. *)
Theorem argmax_lowest_index (X : Type) (x : list X) (y pred : list Q) :
  y <> [] -> pred <> [] ->
  exists i j,
    np_argmax y = Ok i /\ np_argmax pred = Ok j /\
    first_max y i /\ first_max pred j /\
    forall r, count_step r (x, y, pred) = incr r i j.
Proof.
  intros Hy Hp.
  destruct (np_argmax_total y Hy) as (i & Hi & Hfi).
  destruct (np_argmax_total pred Hp) as (j & Hj & Hfj).
  exists i, j. split_and; auto.
  intros r. unfold count_step. rewrite Hi, Hj. reflexivity.
Qed.

Lemma argmax_lowest_index_witness :
  exists i j,
    np_argmax [1; 1] = Ok i /\ np_argmax [3 # 10; 1 # 2; 1 # 2] = Ok j /\
    first_max [1; 1] i /\ first_max [3 # 10; 1 # 2; 1 # 2] j /\
    forall r, count_step r ([5%nat], [1; 1], [3 # 10; 1 # 2; 1 # 2])
              = incr r i j.
Proof.
  apply (argmax_lowest_index nat [5%nat] [1; 1] [3 # 10; 1 # 2; 1 # 2]);
    discriminate.
Defined.

Example argmax_tie : np_argmax [3 # 10; 1 # 2; 2 # 4] = Ok 1%nat.
Proof. reflexivity. Qed.

(** ** The statements of the diagram *)

Lemma skipn_nth_error {A : Type} (l : list A) :
  forall s v, nth_error l s = Some v -> skipn s l = v :: skipn (S s) l.
Proof.
  induction l as [|a t IH]; intros [|s] v H; simpl in H; try discriminate.
  - injection H as ->. reflexivity.
  - rewrite skipn_cons. apply IH. exact H.
Qed.

Lemma label_Ok (class_labels : list string) (c : nat) :
  label class_labels c = Ok (label_of class_labels c).
Proof.
  unfold label, label_of, getitem.
  destruct (Nat.ltb_spec c (length class_labels)) as [Hlt|Hge].
  - destruct (nth_error class_labels c) eqn:E; [reflexivity|].
    apply nth_error_None in E. lia.
  - apply nth_error_None in Hge. rewrite Hge. reflexivity.
Qed.

Lemma nodes_app (g1 g2 : Digraph) : nodes (g1 ++ g2) = nodes g1 ++ nodes g2.
Proof. apply flat_map_app. Qed.

Lemma edges_app (g1 g2 : Digraph) : edges (g1 ++ g2) = edges g1 ++ edges g2.
Proof. apply flat_map_app. Qed.

Lemma edges_between_app (g1 g2 : Digraph) (t h : string) :
  edges_between (g1 ++ g2) t h = edges_between g1 t h ++ edges_between g2 t h.
Proof.
  unfold edges_between. rewrite edges_app, filter_app, map_app. reflexivity.
Qed.

Lemma edges_between_single (t h l t' h' : string) :
  edges_between [Edge t h l] t' h'
  = if (String.eqb t t' && String.eqb h h')%bool then [l] else [].
Proof.
  unfold edges_between. simpl.
  destruct (String.eqb t t' && String.eqb h h')%bool; reflexivity.
Qed.

Lemma str_inj (a b : nat) : str a = str b -> a = b.
Proof.
  unfold str. intros H.
  apply DecimalNat.Unsigned.to_uint_inj.
  assert (E : Some (Nat.to_uint a) = Some (Nat.to_uint b)).
  { rewrite <- (NilEmpty.usu (Nat.to_uint a)), <- (NilEmpty.usu (Nat.to_uint b)).
    rewrite H. reflexivity. }
  injection E as E. exact E.
Qed.

Lemma node_name_eqb (a b : nat) :
  String.eqb (node_name a) (node_name b) = (a =? b)%nat.
Proof.
  destruct (Nat.eqb_spec a b) as [->|Hne].
  - apply String.eqb_refl.
  - apply String.eqb_neq. unfold node_name. simpl. intros H.
    injection H as H. apply Hne, str_inj, H.
Qed.

Lemma nth_error_seq_lt (n : nat) :
  forall s k, (k < n)%nat -> nth_error (seq s n) k = Some (s + k)%nat.
Proof.
  induction n as [|n IH]; intros s [|k] H; simpl; try lia.
  - rewrite Nat.add_0_r. reflexivity.
  - rewrite IH by lia. f_equal. lia.
Qed.

Section Diagram.

(** The loops of the renderer, for any kind of number. *)
Context {N : Type} {num : Number N}.

(** The inner loop appends the edges of the entries it visits. *)
Lemma foldM_edge_step (m : list (list N)) (i : nat) (row : list N) :
  nth_error m i = Some row ->
  forall n s g, (s + n <= length row)%nat ->
    foldM (edge_step m i) (seq s n) g
    = Ok (g ++ row_edges i s (firstn n (skipn s row))).
Proof.
  intros Hrow. induction n as [|n IH]; intros s g Hn; cbn [seq foldM].
  - cbn [firstn row_edges]. rewrite app_nil_r. reflexivity.
  - destruct (getitem_lt row s) as (v & Hget & Hv); [lia|].
    unfold edge_step at 1. unfold getitem at 1. rewrite Hrow. cbn [bind].
    rewrite Hget. cbn [bind].
    rewrite (skipn_nth_error row s v Hv). cbn [firstn row_edges].
    destruct (gt0 (times100 v)); cbn [bind].
    + rewrite IH by lia. unfold graph_edge. rewrite <- app_assoc.
      reflexivity.
    + rewrite IH by lia. reflexivity.
Qed.

(** The outer loop appends, for each row, its node and then its edges. *)
Lemma foldM_row_step (m : list (list N)) (class_labels : list string) :
  forall n s g, (s + n <= length m)%nat ->
    foldM (row_step m class_labels) (seq s n) g
    = Ok (g ++ graph_rows class_labels s (firstn n (skipn s m))).
Proof.
  induction n as [|n IH]; intros s g Hn; cbn [seq foldM].
  - cbn [firstn graph_rows]. rewrite app_nil_r. reflexivity.
  - destruct (getitem_lt m s) as (row & Hget & Hrow); [lia|].
    unfold row_step at 1. rewrite label_Ok. cbn [bind]. rewrite Hget.
    cbn [bind].
    rewrite (foldM_edge_step m s row Hrow) by lia. cbn [bind skipn].
    rewrite firstn_all.
    rewrite (skipn_nth_error m s row Hrow). cbn [firstn graph_rows].
    rewrite IH by lia. unfold graph_node.
    rewrite <- !app_assoc. reflexivity.
Qed.

(** The renderer never fails; its graph is [graph_rows]. *)
Lemma graphviz_cross_category_diagram_Ok (m : list (list N))
    (class_labels : list string) :
  graphviz_cross_category_diagram m class_labels
  = Ok (graph_rows class_labels 0 m).
Proof.
  unfold graphviz_cross_category_diagram.
  rewrite (foldM_row_step m class_labels (length m) 0 []) by lia.
  cbn [skipn app]. rewrite firstn_all. reflexivity.
Qed.

Lemma graph_rows_cons (class_labels : list string) (s : nat) (row : list N)
    (t : list (list N)) :
  graph_rows class_labels s (row :: t)
  = [Node (node_name s) (label_of class_labels s)]
    ++ row_edges s 0 row ++ graph_rows class_labels (S s) t.
Proof. reflexivity. Qed.

Lemma nodes_row_edges (vs : list N) :
  forall i s, nodes (row_edges i s vs) = [].
Proof.
  induction vs as [|v t IH]; intros i s; cbn [row_edges]; [reflexivity|].
  rewrite nodes_app, IH. destruct (gt0 (times100 v)); reflexivity.
Qed.

Lemma nodes_graph_rows (class_labels : list string) (rs : list (list N)) :
  forall s,
    nodes (graph_rows class_labels s rs)
    = map (fun k => (node_name k, label_of class_labels k))
        (seq s (length rs)).
Proof.
  induction rs as [|row t IH]; intros s; [reflexivity|].
  rewrite graph_rows_cons, !nodes_app, nodes_row_edges, IH. reflexivity.
Qed.

Lemma edges_row_edges_length (vs : list N) :
  forall i s,
    length (edges (row_edges i s vs))
    = length (filter (fun v => gt0 (times100 v)) vs).
Proof.
  induction vs as [|v t IH]; intros i s; cbn [row_edges filter];
    [reflexivity|].
  rewrite edges_app, length_app, IH.
  destruct (gt0 (times100 v)); reflexivity.
Qed.

Lemma edges_graph_rows_length (class_labels : list string)
    (rs : list (list N)) :
  forall s,
    length (edges (graph_rows class_labels s rs))
    = length (filter (fun v => gt0 (times100 v)) (concat rs)).
Proof.
  induction rs as [|row t IH]; intros s; [reflexivity|].
  rewrite graph_rows_cons, !edges_app, !length_app, edges_row_edges_length, IH.
  cbn [concat]. rewrite filter_app, length_app. reflexivity.
Qed.

(** When a percentage is positive exactly for a positive entry, there are
    as many edges as strictly positive entries. *)
Lemma edges_count_positive (class_labels : list string) (m : list (list N)) :
  (forall v : N, gt0 (times100 v) = gt0 v) ->
  length (edges (graph_rows class_labels 0 m)) = count_positive m.
Proof.
  intros Hlaw. rewrite edges_graph_rows_length. unfold count_positive.
  f_equal. apply filter_ext. exact Hlaw.
Qed.

Lemma no_edges_without_positive (class_labels : list string)
    (m : list (list N)) :
  Forall (Forall (fun v => gt0 (times100 v) = false)) m ->
  edges (graph_rows class_labels 0 m) = [].
Proof.
  intros Hzero. apply length_zero_iff_nil.
  rewrite edges_graph_rows_length.
  induction Hzero as [|row t Hrow Ht IH]; [reflexivity|].
  cbn [concat]. rewrite filter_app, length_app, IH, Nat.add_0_r.
  clear IH Ht t.
  induction Hrow as [|v vs Hv Hvs IHvs]; [reflexivity|].
  cbn [filter]. rewrite Hv. exact IHvs.
Qed.

Lemma edges_between_row_edges (vs : list N) :
  forall i' s i j,
    edges_between (row_edges i' s vs) (node_name i) (node_name j)
    = if ((i' =? i) && (s <=? j))%nat
      then match nth_error vs (j - s) with
           | Some v => entry_edge v
           | None => []
           end
      else [].
Proof.
  induction vs as [|v t IH]; intros i' s i j; cbn [row_edges].
  - destruct ((i' =? i) && (s <=? j))%nat; [|reflexivity].
    destruct (j - s)%nat; reflexivity.
  - rewrite edges_between_app, IH.
    assert (Hhead :
      edges_between
        (if gt0 (times100 v)
         then [Edge (node_name i') (node_name s) (format_pct (times100 v))]
         else []) (node_name i) (node_name j)
      = if ((i' =? i) && (s =? j))%nat then entry_edge v else []).
    { unfold entry_edge. destruct (gt0 (times100 v)).
      - rewrite edges_between_single, !node_name_eqb. reflexivity.
      - destruct ((i' =? i) && (s =? j))%nat; reflexivity. }
    etransitivity; [exact (f_equal2 (@app string) Hhead eq_refl)|].
    clear Hhead.
    destruct (Nat.eqb_spec i' i) as [->|Hi]; cbn [andb]; [|reflexivity].
    destruct (Nat.eqb_spec s j) as [->|Hsj].
    + replace (S j <=? j)%nat with false
        by (symmetry; apply Nat.leb_gt; lia).
      rewrite Nat.leb_refl, Nat.sub_diag. cbn [nth_error].
      apply app_nil_r.
    + destruct (Nat.leb_spec s j) as [Hle|Hgt].
      * replace (S s <=? j)%nat with true
          by (symmetry; apply Nat.leb_le; lia).
        replace (j - s)%nat with (S (j - S s)) by lia. reflexivity.
      * replace (S s <=? j)%nat with false
          by (symmetry; apply Nat.leb_gt; lia).
        reflexivity.
Qed.

Lemma edges_between_graph_rows (class_labels : list string)
    (rs : list (list N)) :
  forall s i j,
    edges_between (graph_rows class_labels s rs) (node_name i) (node_name j)
    = if (s <=? i)%nat
      then match nth_error rs (i - s) with
           | Some row => match nth_error row j with
                         | Some v => entry_edge v
                         | None => []
                         end
           | None => []
           end
      else [].
Proof.
  induction rs as [|row t IH]; intros s i j.
  - cbn [graph_rows]. destruct (s <=? i)%nat; [|reflexivity].
    destruct (i - s)%nat; reflexivity.
  - rewrite graph_rows_cons, !edges_between_app, edges_between_row_edges, IH.
    change (edges_between [Node (node_name s) (label_of class_labels s)]
              (node_name i) (node_name j)) with (@nil string).
    cbn [app]. change (0 <=? j)%nat with true.
    rewrite Bool.andb_true_r, Nat.sub_0_r.
    destruct (Nat.eqb_spec s i) as [->|Hsi].
    + replace (S i <=? i)%nat with false
        by (symmetry; apply Nat.leb_gt; lia).
      rewrite Nat.leb_refl, Nat.sub_diag. cbn [nth_error].
      apply app_nil_r.
    + destruct (Nat.leb_spec s i) as [Hle|Hgt].
      * replace (S s <=? i)%nat with true
          by (symmetry; apply Nat.leb_le; lia).
        replace (i - s)%nat with (S (i - S s)) by lia. reflexivity.
      * replace (S s <=? i)%nat with false
          by (symmetry; apply Nat.leb_gt; lia).
        reflexivity.
Qed.

(** The edges between two nodes of the rendered graph. *)
Lemma edges_between_entry (class_labels : list string) (m : list (list N))
    (i j : nat) (row : list N) (v : N) :
  nth_error m i = Some row -> nth_error row j = Some v ->
  edges_between (graph_rows class_labels 0 m) (node_name i) (node_name j)
  = entry_edge v.
Proof.
  intros Hrow Hv. rewrite edges_between_graph_rows.
  change (0 <=? i)%nat with true. cbv iota.
  rewrite Nat.sub_0_r, Hrow, Hv. reflexivity.
Qed.

Lemma in_edges_row_edges (vs : list N) :
  forall i s t h l,
    In (t, h, l) (edges (row_edges i s vs)) ->
    t = node_name i /\
    exists j v,
      h = node_name j /\ (s <= j)%nat /\ nth_error vs (j - s) = Some v /\
      gt0 (times100 v) = true /\ l = format_pct (times100 v).
Proof.
  induction vs as [|w vs IH]; intros i s t h l Hin; cbn [row_edges] in Hin.
  - destruct Hin.
  - rewrite edges_app in Hin. apply in_app_or in Hin.
    destruct Hin as [Hin|Hin].
    + destruct (gt0 (times100 w)) eqn:E; [|destruct Hin].
      destruct Hin as [Hin|[]]. injection Hin as <- <- <-.
      split; [reflexivity|]. exists s, w.
      rewrite Nat.sub_diag. split_and; auto.
    + destruct (IH i (S s) t h l Hin) as (Ht & j & v & Hh & Hj & Hv & Hpos & Hl).
      split; [exact Ht|]. exists j, v.
      replace (j - s)%nat with (S (j - S s)) by lia.
      split_and; auto. lia.
Qed.

Lemma in_edges_graph_rows (class_labels : list string) (rs : list (list N)) :
  forall s t h l,
    In (t, h, l) (edges (graph_rows class_labels s rs)) ->
    exists i j row v,
      (s <= i)%nat /\ nth_error rs (i - s) = Some row /\
      nth_error row j = Some v /\
      t = node_name i /\ h = node_name j /\
      gt0 (times100 v) = true /\ l = format_pct (times100 v).
Proof.
  induction rs as [|row rs IH]; intros s t h l Hin.
  - destruct Hin.
  - rewrite graph_rows_cons, !edges_app in Hin.
    cbn [edges flat_map app] in Hin.
    apply in_app_or in Hin. destruct Hin as [Hin|Hin].
    + destruct (in_edges_row_edges row s 0%nat t h l Hin)
        as (Ht & j & v & Hh & _ & Hv & Hpos & Hl).
      rewrite Nat.sub_0_r in Hv.
      exists s, j, row, v. rewrite Nat.sub_diag. split_and; auto.
    + destruct (IH (S s) t h l Hin)
        as (i & j & row' & v & Hi & Hrow & Hv & Ht & Hh & Hpos & Hl).
      exists i, j, row', v.
      replace (i - s)%nat with (S (i - S s)) by lia.
      split_and; auto. lia.
Qed.

End Diagram.

(** ** Exact numbers *)

Lemma positive_true (q : Q) : positive q = true <-> 0 < q.
Proof.
  unfold positive. rewrite negb_true_iff. split; intros H.
  - apply Qnot_le_lt. intros Hle. apply Qle_bool_iff in Hle. congruence.
  - destruct (Qle_bool q 0) eqn:E; [|reflexivity].
    apply Qle_bool_iff in E. destruct (Qlt_not_le _ _ H E).
Qed.

(** A percentage is positive exactly when the entry is. *)
Lemma positive_pct (v : Q) : positive (v * 100) = positive v.
Proof.
  unfold positive. f_equal. unfold Qle_bool, Qmult. simpl.
  destruct (Z.leb_spec (Qnum v * 100 * 1) 0);
    destruct (Z.leb_spec (Qnum v * 1) 0); try reflexivity; lia.
Qed.

Lemma Q_times100_gt0 (v : Q) : gt0 (times100 v) = gt0 v.
Proof. apply positive_pct. Qed.

(** ** Binary64 numbers *)

Section FloatRounding.

(** The rounding of [SpecFloat], as far as the sign and the size of a
    product by 100 go. *)
Local Open Scope Z_scope.

Lemma pow2_step (d : Z) : 1 <= d -> 2 ^ d = 2 * 2 ^ (d - 1).
Proof.
  intros Hd. replace d with (Z.succ (d - 1)) at 1 by lia.
  apply Z.pow_succ_r. lia.
Qed.

Lemma digits2_pos_bounds (p : BinNums.positive) :
  2 ^ (Zpos (digits2_pos p) - 1) <= Zpos p < 2 ^ Zpos (digits2_pos p).
Proof.
  induction p as [p IH|p IH|]; cbn [digits2_pos].
  - rewrite (Pos2Z.inj_xI p), Pos2Z.inj_succ.
    pose proof (pow2_step (Zpos (digits2_pos p)) ltac:(lia)) as E.
    replace (Z.succ (Zpos (digits2_pos p)) - 1) with (Zpos (digits2_pos p))
      by lia.
    rewrite Z.pow_succ_r by lia. lia.
  - rewrite (Pos2Z.inj_xO p), Pos2Z.inj_succ.
    pose proof (pow2_step (Zpos (digits2_pos p)) ltac:(lia)) as E.
    replace (Z.succ (Zpos (digits2_pos p)) - 1) with (Zpos (digits2_pos p))
      by lia.
    rewrite Z.pow_succ_r by lia. lia.
  - simpl. lia.
Qed.

Lemma Zdigits2_pos (m : Z) : 0 < m -> 0 < Zdigits2 m.
Proof. destruct m; simpl; lia. Qed.

Lemma Zdigits2_bounds (x : Z) :
  0 < x -> 2 ^ (Zdigits2 x - 1) <= x < 2 ^ Zdigits2 x.
Proof.
  destruct x as [|p|p]; try lia. intros _. apply digits2_pos_bounds.
Qed.

Lemma Zdigits2_le (x k : Z) : 0 < x -> 0 <= k -> x < 2 ^ k -> Zdigits2 x <= k.
Proof.
  intros Hx Hk Hlt. pose proof (Zdigits2_bounds x Hx) as [Hlo _].
  pose proof (Zdigits2_pos x Hx) as Hd.
  destruct (Z_le_gt_dec (Zdigits2 x) k) as [H|H]; [exact H|].
  assert (2 ^ k <= 2 ^ (Zdigits2 x - 1)) by (apply Z.pow_le_mono_r; lia).
  lia.
Qed.

Lemma shr_1_pos (mrs : shr_record) :
  0 < shr_m mrs -> 1 < Zdigits2 (shr_m mrs) ->
  0 < shr_m (shr_1 mrs) /\
  Zdigits2 (shr_m (shr_1 mrs)) = Zdigits2 (shr_m mrs) - 1.
Proof.
  destruct mrs as [m r s]. cbn [shr_m].
  destruct m as [|[p|p|]|p]; cbn [shr_1 shr_m Zdigits2 digits2_pos];
    intros H0 H1; try lia; rewrite ?Pos2Z.inj_succ; lia.
Qed.

(** Shifting out fewer bits than the mantissa has leaves it positive. *)
Lemma iter_shr_1_pos (p : BinNums.positive) :
  forall mrs,
    0 < shr_m mrs -> Zpos p < Zdigits2 (shr_m mrs) ->
    0 < shr_m (SpecFloat.iter_pos shr_1 p mrs) /\
    Zdigits2 (shr_m (SpecFloat.iter_pos shr_1 p mrs))
    = Zdigits2 (shr_m mrs) - Zpos p.
Proof.
  induction p as [p IH|p IH|]; intros mrs H0 Hd; cbn [SpecFloat.iter_pos].
  - rewrite Pos2Z.inj_xI in *.
    destruct (shr_1_pos mrs H0 ltac:(lia)) as [A1 A2].
    destruct (IH (shr_1 mrs) A1 ltac:(lia)) as [B1 B2].
    destruct (IH _ B1 ltac:(lia)) as [C1 C2].
    split; [exact C1|lia].
  - rewrite Pos2Z.inj_xO in *.
    destruct (IH mrs H0 ltac:(lia)) as [B1 B2].
    destruct (IH _ B1 ltac:(lia)) as [C1 C2].
    split; [exact C1|lia].
  - apply shr_1_pos; lia.
Qed.

Lemma shr_m_of_loc (m : Z) (l : location) : shr_m (shr_record_of_loc m l) = m.
Proof. destruct l as [|[ | | ]]; reflexivity. Qed.

Lemma shr_fexp_pos (m e : Z) (l : location) :
  0 < m -> emin - e < Zdigits2 m ->
  0 < shr_m (fst (shr_fexp prec emax m e l)) /\
  emin <= snd (shr_fexp prec emax m e l).
Proof.
  intros H0 Hd. unfold shr_fexp, shr.
  pose proof (Z.le_max_r (Zdigits2 m + e - prec) emin) as Hmax.
  assert (Hprec : 0 < prec) by reflexivity.
  unfold fexp.
  destruct (Z.max (Zdigits2 m + e - prec) emin - e) as [|p|p] eqn:En;
    cbn [fst snd]; rewrite ?shr_m_of_loc.
  - split; lia.
  - destruct (iter_shr_1_pos p (shr_record_of_loc m l)) as [A _];
      rewrite ?shr_m_of_loc; lia.
  - split; lia.
Qed.

(** After the shift of [shr_fexp] the mantissa has at most [prec] digits
    and the exponent is the larger of the old one and [fexp]. *)
Lemma shr_fexp_digits (m e : Z) (l : location) :
  0 < m -> emin - e < Zdigits2 m ->
  Zdigits2 (shr_m (fst (shr_fexp prec emax m e l))) <= prec /\
  snd (shr_fexp prec emax m e l)
  = Z.max e (Z.max (Zdigits2 m + e - prec) emin).
Proof.
  intros H0 Hd. unfold shr_fexp, shr, fexp.
  assert (Hprec : prec = 53) by reflexivity.
  destruct (Z.max (Zdigits2 m + e - prec) emin - e) as [|p|p] eqn:En;
    cbn [fst snd]; rewrite ?shr_m_of_loc.
  - split; lia.
  - destruct (iter_shr_1_pos p (shr_record_of_loc m l)) as [_ A];
      rewrite ?shr_m_of_loc in *; lia.
  - split; lia.
Qed.

Lemma round_nearest_even_pos (m : Z) (l : location) :
  0 < m -> 0 < round_nearest_even m l.
Proof.
  intros H. destruct l as [|[ | | ]]; cbn [round_nearest_even]; try lia.
  destruct (Z.even m); lia.
Qed.

Lemma round_nearest_even_le (m : Z) (l : location) :
  round_nearest_even m l <= m + 1.
Proof.
  destruct l as [|[ | | ]]; cbn [round_nearest_even]; try lia.
  destruct (Z.even m); lia.
Qed.

(** Rounding a positive mantissa keeps the sign and never gives zero; the
    result is infinite only when the exponent passes the largest one. *)
Lemma binary_round_aux_sign (sx : bool) (mx ex : Z) (lx : location) :
  0 < mx -> emin - ex < Zdigits2 mx ->
  (exists m e, binary_round_aux prec emax sx mx ex lx = S754_finite sx m e) \/
  (binary_round_aux prec emax sx mx ex lx = S754_infinity sx /\
   emax - prec < Z.max ex (Z.max (Zdigits2 mx + ex - prec) emin) + 1).
Proof.
  intros H0 Hd. unfold binary_round_aux.
  pose proof (shr_fexp_pos mx ex lx H0 Hd) as H1.
  pose proof (shr_fexp_digits mx ex lx H0 Hd) as D1.
  destruct (shr_fexp prec emax mx ex lx) as [mrs1 e1].
  cbn [fst snd] in H1, D1. destruct H1 as [Hm1 He1]. destruct D1 as [Hd1 Ee1].
  set (m2 := round_nearest_even (shr_m mrs1) (loc_of_shr_record mrs1)).
  assert (Hm2 : 0 < m2) by (apply round_nearest_even_pos; assumption).
  pose proof (Zdigits2_pos m2 Hm2) as Hd2.
  assert (Hd2' : Zdigits2 m2 <= prec + 1).
  { assert (Hprec : prec = 53) by reflexivity.
    apply Zdigits2_le; [assumption | lia |].
    pose proof (round_nearest_even_le (shr_m mrs1) (loc_of_shr_record mrs1))
      as H.
    pose proof (Zdigits2_bounds (shr_m mrs1) Hm1) as [_ Hhi].
    assert (2 ^ Zdigits2 (shr_m mrs1) <= 2 ^ prec)
      by (apply Z.pow_le_mono_r; lia).
    replace (prec + 1) with (Z.succ prec) by lia.
    rewrite Z.pow_succ_r by lia. fold m2 in H. lia. }
  pose proof (shr_fexp_pos m2 e1 loc_Exact Hm2 ltac:(lia)) as H2.
  pose proof (shr_fexp_digits m2 e1 loc_Exact Hm2 ltac:(lia)) as D2.
  destruct (shr_fexp prec emax m2 e1 loc_Exact) as [mrs2 e2].
  cbn [fst snd] in H2, D2. destruct H2 as [Hm _]. destruct D2 as [_ Ee2].
  destruct (shr_m mrs2) as [|m|m]; try lia.
  destruct (Z.leb_spec e2 (emax - prec)); [left; eauto | right].
  split; [reflexivity|]. lia.
Qed.

(** The mantissa of a product by [100.0]. *)
Lemma product_digits (m : BinNums.positive) :
  52 < Zdigits2 (Zpos (m * 7036874417766400)) <= Zpos (digits2_pos m) + 53.
Proof.
  cbn [Zdigits2].
  pose proof (digits2_pos_bounds (m * 7036874417766400)) as [_ Hb].
  pose proof (digits2_pos_bounds m) as [_ Hm].
  rewrite Pos2Z.inj_mul in *.
  split.
  - apply (Z.pow_lt_mono_r_iff 2); lia.
  - apply (Zdigits2_le (Zpos m * 7036874417766400)); try lia.
    rewrite Z.pow_add_r by lia.
    change (2 ^ 53) with 9007199254740992.
    nia.
Qed.

Lemma valid_finite (s : bool) (m : BinNums.positive) (e : Z) :
  valid_binary (S754_finite s m e) = true ->
  emin <= e /\ Zpos (digits2_pos m) <= prec.
Proof.
  cbn [SpecFloat.valid_binary]. unfold bounded, canonical_mantissa, fexp.
  intros Hv. apply andb_prop in Hv. destruct Hv as [Hc _].
  apply Z.eqb_eq in Hc. lia.
Qed.

(** A product by [100.0] is above zero exactly when the factor is. *)
Lemma SFmul_100_sign (x : spec_float) :
  valid_binary x = true ->
  SFltb (S754_zero false)
    (SFmul prec emax x (S754_finite false 7036874417766400 (-46)))
  = SFltb (S754_zero false) x.
Proof.
  intros Hv. destruct x as [s|s| |s m e]; try reflexivity.
  - destruct s; reflexivity.
  - destruct (valid_finite s m e Hv) as [He _].
    cbn [SFmul]. rewrite xorb_false_r.
    pose proof (product_digits m) as [Hd _].
    destruct (binary_round_aux_sign s (Zpos (m * 7036874417766400)) (e + -46)
                loc_Exact ltac:(lia) ltac:(lia)) as [(m' & e' & ->)| [-> _]];
      destruct s; reflexivity.
Qed.

(** The product by [100.0] of a positive number not above [1.0] is
    finite. *)
Lemma SFmul_100_finite (m : BinNums.positive) (e : Z) :
  valid_binary (S754_finite false m e) = true ->
  SFleb (S754_finite false m e) (S754_finite false 4503599627370496 (-52))
  = true ->
  exists m' e',
    SFmul prec emax (S754_finite false m e)
      (S754_finite false 7036874417766400 (-46))
    = S754_finite false m' e'.
Proof.
  intros Hv Hle. destruct (valid_finite false m e Hv) as [He Hdm].
  assert (Hprec : prec = 53) by reflexivity.
  assert (Hemax : emax = 1024) by reflexivity.
  assert (Hemin : emin = -1074) by reflexivity.
  assert (Hbound : Zpos (digits2_pos m) + e <= 1).
  { unfold SFleb in Hle. cbn [SFcompare] in Hle.
    destruct (Z.compare_spec e (-52)) as [E|E|E]; try discriminate; [|lia].
    clear Hle. lia. }
  cbn [SFmul xorb].
  pose proof (product_digits m) as [Hd Hd'].
  destruct (binary_round_aux_sign false (Zpos (m * 7036874417766400)) (e + -46)
              loc_Exact ltac:(lia) ltac:(lia)) as [(m' & e' & ->)| [_ Hinf]].
  - eauto.
  - exfalso. lia.
Qed.

End FloatRounding.

(** For binary64 numbers a percentage is above zero exactly when the entry
    is. *)
Lemma float_times100_gt0 (v : float) : gt0 (times100 v) = gt0 v.
Proof.
  cbn [gt0 times100 float_number].
  rewrite !ltb_spec, mul_spec.
  change (Prim2SF 0) with (S754_zero false).
  change (Prim2SF 100) with (S754_finite false 7036874417766400 (-46)).
  apply SFmul_100_sign. apply Prim2SF_valid.
Qed.

(** The percentage of an entry in (0, 1] is a finite positive number. *)
Lemma float_pct_finite (v : float) :
  PrimFloat.ltb 0 v = true -> PrimFloat.leb v 1 = true ->
  exists mant e, Prim2SF (PrimFloat.mul v 100) = S754_finite false mant e.
Proof.
  rewrite ltb_spec, leb_spec, mul_spec.
  change (Prim2SF 0) with (S754_zero false).
  change (Prim2SF 1) with (S754_finite false 4503599627370496 (-52)).
  change (Prim2SF 100) with (S754_finite false 7036874417766400 (-46)).
  pose proof (Prim2SF_valid v) as Hv.
  destruct (Prim2SF v) as [s|s| |s m e]; try discriminate.
  - destruct s; discriminate.
  - destruct s; [discriminate|]. intros _ Hle.
    apply SFmul_100_finite; assumption.
Qed.

(** Zero, of either sign, is not above zero. *)
Lemma float_zero_not_gt0 (v : float) :
  PrimFloat.eqb v 0 = true -> PrimFloat.ltb 0 v = false.
Proof.
  rewrite FloatAxioms.eqb_spec, FloatAxioms.ltb_spec.
  change (Prim2SF 0) with (S754_zero false).
  destruct (Prim2SF v) as [s|s| |s m e]; try reflexivity;
    destruct s; discriminate.
Qed.

(** ** The format of a percentage *)

Lemma digit_is_digit (n : nat) : (n < 10)%nat -> is_digit (digit n) = true.
Proof.
  intros H. unfold is_digit, digit.
  rewrite nat_ascii_embedding by lia.
  apply andb_true_iff. split; apply Nat.leb_le; lia.
Qed.

(** The three characters after the point are decimal digits. *)
Lemma digits3_shape (n : nat) :
  (n < 1000)%nat ->
  exists d1 d2 d3,
    digits3 n = String d1 (String d2 (String d3 EmptyString)) /\
    is_digit d1 = true /\ is_digit d2 = true /\ is_digit d3 = true.
Proof.
  intros H. unfold digits3. do 3 eexists. split; [reflexivity|].
  split_and; apply digit_is_digit.
  - apply Nat.Div0.div_lt_upper_bound. lia.
  - apply Nat.mod_upper_bound. lia.
  - apply Nat.mod_upper_bound. lia.
Qed.

Lemma string_app_assoc (a b c : string) :
  ((a ++ b) ++ c = a ++ (b ++ c))%string.
Proof.
  induction a as [|ch a IH]; simpl; [reflexivity|]. rewrite IH. reflexivity.
Qed.

(** The rounding of the format is to a nearest integer: the printed value
    is within half a thousandth of the number. *)
Lemma round_half_even_nearest (q : Q) :
  - (1 # 2) <= inject_Z (round_half_even q) - q /\
  inject_Z (round_half_even q) - q <= 1 # 2.
Proof.
  destruct q as [n d]. unfold round_half_even. cbn [Qnum Qden].
  pose proof (Z.div_mod n (Zpos d) ltac:(lia)) as Hdiv.
  pose proof (Z.mod_pos_bound n (Zpos d) ltac:(lia)) as Hmod.
  set (f := (n / Zpos d)%Z) in *. set (r := (n mod Zpos d)%Z) in *.
  assert (Hcase :
    forall z, (2 * (z * Zpos d - n) <= Zpos d)%Z ->
              (- Zpos d <= 2 * (z * Zpos d - n))%Z ->
              - (1 # 2) <= inject_Z z - (n # d) /\
              inject_Z z - (n # d) <= 1 # 2).
  { intros z H1 H2. unfold Qle, Qminus, Qplus, Qopp, inject_Z.
    cbn [Qnum Qden]. rewrite !Pos.mul_1_l. split; lia. }
  destruct (Z.compare_spec (2 * r) (Zpos d)) as [E|E|E].
  - destruct (Z.even f); apply Hcase; nia.
  - apply Hcase; nia.
  - apply Hcase; nia.
Qed.

(** On a tie the even neighbour is taken. *)
Lemma round_half_even_tie (q : Q) :
  inject_Z (round_half_even q) - q == 1 # 2 \/
  inject_Z (round_half_even q) - q == - (1 # 2) ->
  Z.even (round_half_even q) = true.
Proof.
  destruct q as [n d]. unfold round_half_even. cbn [Qnum Qden].
  pose proof (Z.div_mod n (Zpos d) ltac:(lia)) as Hdiv.
  pose proof (Z.mod_pos_bound n (Zpos d) ltac:(lia)) as Hmod.
  set (f := (n / Zpos d)%Z) in *. set (r := (n mod Zpos d)%Z) in *.
  assert (Hcase :
    forall z, inject_Z z - (n # d) == 1 # 2 \/
              inject_Z z - (n # d) == - (1 # 2) ->
              (2 * (z * Zpos d - n) = Zpos d \/
               2 * (z * Zpos d - n) = - Zpos d)%Z).
  { intros z. unfold Qeq, Qminus, Qplus, Qopp, inject_Z.
    cbn [Qnum Qden]. rewrite !Pos.mul_1_l. intros [H|H]; lia. }
  destruct (Z.compare_spec (2 * r) (Zpos d)) as [E|E|E].
  - intros _. destruct (Z.even f) eqn:Ef; [exact Ef|].
    rewrite Z.add_1_r, Z.even_succ, <- Z.negb_even, Ef. reflexivity.
  - intros H. apply Hcase in H. exfalso. nia.
  - intros H. apply Hcase in H. exfalso. nia.
Qed.

Lemma round_half_even_nonneg (q : Q) :
  (0 <= Qnum q)%Z -> (0 <= round_half_even q)%Z.
Proof.
  intros H. unfold round_half_even.
  assert (Hf : (0 <= Qnum q / Zpos (Qden q))%Z)
    by (apply Z.div_pos; lia).
  destruct (2 * (Qnum q mod Zpos (Qden q)) ?= Zpos (Qden q))%Z; try lia.
  destruct (Z.even (Qnum q / Zpos (Qden q))); lia.
Qed.

(** The format of a number that is not negative, in thousandths: the
    integer part of the rounded value, a point, and its last three
    digits. *)
Lemma format_3f_thousandths (q : Q) :
  (0 <= Qnum q)%Z ->
  format_3f q
  = (str (Z.to_nat (round_half_even (q * 1000)) / 1000) ++ "."
     ++ digits3 (Z.to_nat (round_half_even (q * 1000)) mod 1000))%string.
Proof.
  intros H. unfold format_3f.
  assert (Ht : (0 <= round_half_even (q * 1000))%Z).
  { apply round_half_even_nonneg. simpl. lia. }
  replace (Qnum q <? 0)%Z with false by (symmetry; apply Z.ltb_ge; exact H).
  rewrite Z.abs_eq by exact Ht.
  set (t := round_half_even (q * 1000)) in *.
  rewrite (Z2Nat.inj_div t 1000 Ht ltac:(lia)).
  rewrite (Z2Nat.inj_mod t 1000 Ht ltac:(lia)).
  reflexivity.
Qed.

Lemma SF2Q_nonneg (mant : BinNums.positive) (e : Z) :
  (0 <= Qnum (SF2Q false mant e))%Z.
Proof.
  unfold SF2Q. destruct e as [|p|p]; cbn [Qnum inject_Z]; lia.
Qed.

(** The label of a finite positive percentage: the number of thousandths
    nearest to its exact value, ties to the even one, written as integer
    part, point and three digits, then the percent sign. *)
Lemma format_pct_float_finite (acc : float) (mant : BinNums.positive) (e : Z) :
  Prim2SF acc = S754_finite false mant e ->
  exists T : nat,
    - (1 # 2) <= inject_Z (Z.of_nat T) - SF2Q false mant e * 1000 /\
    inject_Z (Z.of_nat T) - SF2Q false mant e * 1000 <= 1 # 2 /\
    (inject_Z (Z.of_nat T) - SF2Q false mant e * 1000 == 1 # 2 \/
     inject_Z (Z.of_nat T) - SF2Q false mant e * 1000 == - (1 # 2) ->
     Z.even (Z.of_nat T) = true) /\
    format_pct acc
    = (str (T / 1000) ++ "." ++ digits3 (T mod 1000) ++ "%")%string.
Proof.
  intros Hacc.
  pose proof (SF2Q_nonneg mant e) as Hq.
  set (q := SF2Q false mant e) in *.
  assert (Ht : (0 <= round_half_even (q * 1000))%Z).
  { apply round_half_even_nonneg. simpl. lia. }
  exists (Z.to_nat (round_half_even (q * 1000))).
  rewrite (Z2Nat.id _ Ht).
  destruct (round_half_even_nearest (q * 1000)) as [Hlo Hhi].
  split_and; auto.
  - apply round_half_even_tie.
  - unfold format_pct. cbn [format_3f_of float_number].
    unfold format_3f_float. rewrite Hacc. fold q.
    rewrite (format_3f_thousandths q Hq), !string_app_assoc. reflexivity.
Qed.

(** C3. For every matrix of binary64 numbers the renderer makes exactly
    one edge from the node of the true category to the node of the
    predicted category for each entry whose percentage is above zero, and
    none for the others.  The label of the edge is the percentage formatted
    with three decimals and a percent sign: for a finite percentage, the
    number of thousandths nearest to its exact value, ties to even, written
    as integer part, point and exactly three digits; the percentage of an
    entry in (0, 1] is finite.  The number of edges is the number of
    strictly positive entries, and a zero matrix gives no edge and all its
    nodes. *)
Theorem diagram_edges (m : list (list float)) (class_labels : list string) :
  exists g,
    graphviz_cross_category_diagram m class_labels = Ok g /\
    (forall i j row v,
        nth_error m i = Some row -> nth_error row j = Some v ->
        (PrimFloat.ltb 0 (PrimFloat.mul v 100) = true ->
         edges_between g (node_name i) (node_name j)
         = [format_pct (PrimFloat.mul v 100)])
        /\
        (PrimFloat.ltb 0 (PrimFloat.mul v 100) = false ->
         edges_between g (node_name i) (node_name j) = [])) /\
    (forall acc mant e,
        Prim2SF acc = S754_finite false mant e ->
        exists T : nat,
          - (1 # 2) <= inject_Z (Z.of_nat T) - SF2Q false mant e * 1000 /\
          inject_Z (Z.of_nat T) - SF2Q false mant e * 1000 <= 1 # 2 /\
          (inject_Z (Z.of_nat T) - SF2Q false mant e * 1000 == 1 # 2 \/
           inject_Z (Z.of_nat T) - SF2Q false mant e * 1000 == - (1 # 2) ->
           Z.even (Z.of_nat T) = true) /\
          format_pct acc
          = (str (T / 1000) ++ "." ++ digits3 (T mod 1000) ++ "%")%string) /\
    (forall v,
        PrimFloat.ltb 0 v = true -> PrimFloat.leb v 1 = true ->
        exists mant e,
          Prim2SF (PrimFloat.mul v 100) = S754_finite false mant e) /\
    length (edges g) = count_positive m /\
    length (nodes g) = length m /\
    (Forall (Forall (fun v => PrimFloat.eqb v 0 = true)) m -> edges g = []).
Proof.
  exists (graph_rows class_labels 0 m).
  split; [apply graphviz_cross_category_diagram_Ok|].
  split; [|split; [exact format_pct_float_finite
                  |split; [exact float_pct_finite|split; [|split]]]].
  - intros i j row v Hrow Hv.
    rewrite (edges_between_entry class_labels m i j row v Hrow Hv).
    unfold entry_edge. cbn [gt0 times100 float_number].
    split; intros H; rewrite H; reflexivity.
  - apply edges_count_positive. exact float_times100_gt0.
  - rewrite nodes_graph_rows, length_map, length_seq. reflexivity.
  - intros Hzero. apply no_edges_without_positive.
    eapply Forall_impl; [|exact Hzero]. intros row Hrow.
    eapply Forall_impl; [|exact Hrow]. intros v Hv. cbv beta in Hv.
    rewrite float_times100_gt0. exact (float_zero_not_gt0 v Hv).
Qed.

Lemma diagram_edges_witness :
  exists g,
    graphviz_cross_category_diagram
      [[PrimFloat.div 23 320; PrimFloat.div 297 320]; [0; 1]]%float [] = Ok g /\
    edges_between g (node_name 0) (node_name 0) = ["7.187%"%string] /\
    edges_between g (node_name 1) (node_name 0) = [].
Proof.
  destruct (diagram_edges
              [[PrimFloat.div 23 320; PrimFloat.div 297 320]; [0; 1]]%float [])
    as (g & Hg & Hedges & _).
  exists g. split; [exact Hg|]. split.
  - apply (proj1 (Hedges 0%nat 0%nat
                    [PrimFloat.div 23 320; PrimFloat.div 297 320]%float
                    (PrimFloat.div 23 320) eq_refl eq_refl)).
    reflexivity.
  - apply (proj2 (Hedges 1%nat 0%nat [0; 1]%float 0%float eq_refl eq_refl)).
    reflexivity.
Defined.

Example diagram_identity :
  graphviz_cross_category_diagram [[1; 0]; [0; 1]]%float []
  = Ok [Node "C0" "Category 0"; Edge "C0" "C0" "100.000%";
        Node "C1" "Category 1"; Edge "C1" "C1" "100.000%"].
Proof. reflexivity. Qed.

Example format_pct_eighth :
  format_pct (PrimFloat.mul 0.125 100) = "12.500%"%string.
Proof. reflexivity. Qed.

(** Quotients of counts whose percentage lies next to a tie: the float
    product decides the last digit. *)
Example format_pct_23_320 :
  format_pct (PrimFloat.mul (PrimFloat.div 23 320) 100) = "7.187%"%string.
Proof. reflexivity. Qed.

Example format_pct_3_8000 :
  format_pct (PrimFloat.mul (PrimFloat.div 3 8000) 100) = "0.037%"%string.
Proof. reflexivity. Qed.

Example format_pct_49_320 :
  format_pct (PrimFloat.mul (PrimFloat.div 49 320) 100) = "15.313%"%string.
Proof. reflexivity. Qed.

Example format_3f_tie_to_even : format_3f (625 # 10000) = "0.062"%string.
Proof. reflexivity. Qed.

Example format_pct_infinite :
  format_pct (PrimFloat.mul 0x1p1023 100) = "inf%"%string.
Proof. reflexivity. Qed.

(** C8. For every matrix and every list of labels, also the empty list,
    the renderer returns a graph; node [i] shows the label at index [i]
    when there is one and ['Category i'] otherwise. *)
Theorem diagram_node_labels {N : Type} {num : Number N}
    (m : list (list N)) (class_labels : list string) :
  exists g,
    graphviz_cross_category_diagram m class_labels = Ok g /\
    length (nodes g) = length m /\
    forall i, (i < length m)%nat ->
      ((i < length class_labels)%nat ->
       exists l, nth_error class_labels i = Some l /\
                 nth_error (nodes g) i = Some (node_name i, l)) /\
      ((length class_labels <= i)%nat ->
       nth_error (nodes g) i
       = Some (node_name i, ("Category " ++ str i)%string)).
Proof.
  exists (graph_rows class_labels 0 m).
  split; [apply graphviz_cross_category_diagram_Ok|].
  rewrite nodes_graph_rows. split; [rewrite length_map, length_seq; reflexivity|].
  intros i Hi. rewrite nth_error_map, (nth_error_seq_lt _ 0 i Hi).
  cbn [option_map Nat.add].
  unfold label_of. split; intros H.
  - destruct (nth_error class_labels i) as [l|] eqn:E.
    + exists l. split; reflexivity.
    + apply nth_error_None in E. lia.
  - apply nth_error_None in H. rewrite H. reflexivity.
Qed.

Lemma diagram_node_labels_witness :
  exists g,
    graphviz_cross_category_diagram [[1 # 2; 1 # 2]; [0; 1]] ["resistor"%string]
    = Ok g /\
    (exists l, nth_error ["resistor"%string] 0 = Some l /\
               nth_error (nodes g) 0 = Some (node_name 0, l)) /\
    nth_error (nodes g) 1 = Some (node_name 1, "Category 1"%string).
Proof.
  destruct (diagram_node_labels [[1 # 2; 1 # 2]; [0; 1]] ["resistor"%string])
    as (g & Hg & _ & Hnodes).
  exists g. split; [exact Hg|]. split.
  - apply (proj1 (Hnodes 0%nat ltac:(simpl; lia))). simpl. lia.
  - apply (proj2 (Hnodes 1%nat ltac:(simpl; lia))). simpl. lia.
Defined.

(** ** The rows of the incremental plot *)

Lemma string_get_None (s : string) :
  forall i, (String.length s <= i)%nat -> String.get i s = None.
Proof.
  induction s as [|ch s IH]; intros i H; simpl; [reflexivity|].
  destruct i as [|i]; simpl in H; [lia|]. apply IH. lia.
Qed.

Lemma string_get_Some (s : string) :
  forall i, (i < String.length s)%nat -> exists ch, String.get i s = Some ch.
Proof.
  induction s as [|ch s IH]; intros i H; simpl in *; [lia|].
  destruct i as [|i]; [eauto|]. apply IH. lia.
Qed.

Lemma step_char_Ok (partnum : string) (i : nat) :
  step_char partnum i = Ok (char_or_empty partnum i).
Proof.
  unfold step_char, char_or_empty.
  destruct (Nat.ltb_spec i (String.length partnum)) as [Hlt|Hge].
  - destruct (string_get_Some partnum i Hlt) as (ch & ->). reflexivity.
  - rewrite (string_get_None partnum i Hge). reflexivity.
Qed.

Section Plot.

Variable X : Type.
Variable predict : list (list X) -> list (list Q).

(** The row recorded for the prefix at position [k] of [x_steps]. *)
Let row_of (partnum : string) (ix : nat * list X) : string * list Q :=
  (char_or_empty partnum (fst ix), concat (predict [snd ix])).

Lemma foldM_plot_step (partnum : string) (ixs : list (nat * list X)) :
  forall acc,
    foldM (plot_step predict partnum) ixs acc
    = Ok (acc ++ map (row_of partnum) ixs).
Proof.
  induction ixs as [|[i x_step] t IH]; intros acc; simpl.
  - rewrite app_nil_r. reflexivity.
  - rewrite step_char_Ok. simpl. rewrite IH, <- app_assoc. reflexivity.
Qed.

Lemma combine_seq_map {B : Type} (g : nat -> B) (n : nat) :
  forall s,
    combine (seq s n) (map g (seq (S s) n))
    = map (fun k => (k, g (S k))) (seq s n).
Proof.
  induction n as [|n IH]; intros s; simpl; [reflexivity|].
  rewrite IH. reflexivity.
Qed.

Lemma enumerate_x_steps (x : list X) :
  enumerate (x_steps x)
  = map (fun k => (k, firstn (S k) x)) (seq 0 (length x - 1)).
Proof.
  unfold enumerate, x_steps. rewrite length_map, length_seq.
  apply combine_seq_map.
Qed.

(** The loop never fails: row [k] holds the character at [k] and the
    prediction for the prefix of length [k + 1]. *)
Lemma step_preds_Ok (partnum : string) (x : list X) :
  step_preds predict partnum x
  = Ok (map (fun k => (char_or_empty partnum k,
                       concat (predict [firstn (S k) x])))
          (seq 0 (length x - 1))).
Proof.
  unfold step_preds. rewrite foldM_plot_step, enumerate_x_steps. simpl.
  rewrite map_map. reflexivity.
Qed.

End Plot.

(** C4. For an input of length [n >= 2] the plotter records exactly
    [n - 1] rows, one for each prefix length from 1 to [n - 1]; the row of
    prefix length [i] carries the character of the partial label at index
    [i - 1] when there is one and the empty string otherwise; an input of
    three elements gives two rows. *)
Theorem step_preds_rows (X : Type)
    (predict : list (list X) -> list (list Q)) (partnum : string)
    (x : list X) :
  (2 <= length x)%nat ->
  exists rows,
    step_preds predict partnum x = Ok rows /\
    length rows = (length x - 1)%nat /\
    (forall i, (1 <= i <= length x - 1)%nat ->
       exists c,
         nth_error rows (i - 1) = Some (c, concat (predict [firstn i x])) /\
         ((i - 1 < String.length partnum)%nat ->
          exists ch, String.get (i - 1) partnum = Some ch /\
                     c = String ch EmptyString) /\
         ((String.length partnum <= i - 1)%nat -> c = EmptyString)) /\
    (length x = 3%nat -> length rows = 2%nat).
Proof.
  intros Hlen. eexists. split; [apply step_preds_Ok|].
  rewrite length_map, length_seq. split; [reflexivity|]. split.
  - intros i Hi. exists (char_or_empty partnum (i - 1)).
    rewrite nth_error_map, nth_error_seq_lt by lia. cbn [option_map Nat.add].
    replace (S (i - 1)) with i by lia. split; [reflexivity|].
    unfold char_or_empty. split; intros H.
    + destruct (string_get_Some partnum (i - 1) H) as (ch & E).
      exists ch. rewrite E. split; reflexivity.
    + rewrite (string_get_None partnum (i - 1) H). reflexivity.
  - intros H3. rewrite H3. reflexivity.
Qed.

Lemma step_preds_rows_witness :
  exists rows,
    step_preds (fun b : list (list nat) => map (fun r => [inject_Z (Z.of_nat (length r))]) b)
      "ab" [7; 8; 9; 10]%nat = Ok rows /\
    length rows = 3%nat /\
    nth_error rows 2 = Some (EmptyString, [3]).
Proof.
  destruct (step_preds_rows nat
              (fun b => map (fun r => [inject_Z (Z.of_nat (length r))]) b)
              "ab" [7; 8; 9; 10]%nat ltac:(simpl; lia))
    as (rows & Hrows & Hlen & Hrow & _).
  exists rows. split; [exact Hrows|]. split; [exact Hlen|].
  destruct (Hrow 3%nat ltac:(simpl; lia)) as (c & Hc & _ & Hempty).
  rewrite (Hempty ltac:(simpl; lia)) in Hc. exact Hc.
Defined.

Example step_preds_three :
  step_preds (fun b : list (list nat) => map (fun r => [inject_Z (Z.of_nat (length r))]) b)
    "abc" [7; 8; 9]%nat
  = Ok [("a"%string, [1]); ("b"%string, [2])].
Proof. reflexivity. Qed.

(** * Further properties of [cross_category_bleeding] *)

(** ** The raw counts, entry by entry *)

Lemma entry_incr (r r' : matrix) (i j : nat) :
  incr r i j = Ok r' ->
  forall k l,
    entry r' k l
    = option_map (fun v => if ((k =? i) && (l =? j))%nat then v + 1 else v)
        (entry r k l).
Proof.
  unfold incr. intros H. inv_bind H. rename a into row. inv_bind H.
  rename a into v. injection H as <-. apply getitem_Ok in Ha, Ha0.
  assert (Hi : (i < length r)%nat) by (apply nth_error_Some; congruence).
  assert (Hj : (j < length row)%nat) by (apply nth_error_Some; congruence).
  intros k l. unfold entry.
  destruct (Nat.eqb_spec k i) as [->|Hk]; cbn [andb].
  - rewrite setitem_same, Ha by assumption.
    destruct (Nat.eqb_spec l j) as [->|Hl].
    + rewrite setitem_same, Ha0 by assumption. reflexivity.
    + rewrite setitem_other by congruence.
      destruct (nth_error row l); reflexivity.
  - rewrite setitem_other by congruence.
    destruct (nth_error r k) as [a|]; [|reflexivity].
    destruct (nth_error a l); reflexivity.
Qed.

Lemma entry_foldM_count_step (X : Type)
    (exs : list (list X * list Q * list Q)) :
  forall r r',
    foldM (@count_step X) exs r = Ok r' ->
    forall k l,
      entry r' k l
      = option_map (Nat.iter (pair_count k l exs) (fun q => q + 1))
          (entry r k l).
Proof.
  induction exs as [|ex exs IH]; simpl; intros r r' H k l.
  - injection H as <-. destruct (entry r k l); reflexivity.
  - inv_bind H. rename a into r1.
    destruct (count_step_Ok X _ _ _ Ha) as (i & j & Hi & Hj & Hincr).
    rewrite (IH _ _ H k l), (entry_incr _ _ _ _ Hincr k l).
    unfold pair_count. cbn [filter]. unfold pair_isb at 2. rewrite Hi, Hj.
    destruct (entry r k l) as [v|]; [|reflexivity]. cbn [option_map].
    destruct ((k =? i) && (l =? j))%nat; [|reflexivity].
    cbn [length]. rewrite Nat.iter_succ_r. reflexivity.
Qed.

Lemma iter_incr_zero (n : nat) :
  Nat.iter n (fun q => q + 1) 0 = inject_Z (Z.of_nat n).
Proof.
  induction n as [|n IH]; [reflexivity|].
  rewrite Nat.iter_succ, IH, Nat2Z.inj_succ.
  generalize (Z.of_nat n) as z. intros z.
  unfold Qplus, inject_Z. cbn [Qnum Qden]. f_equal. lia.
Qed.

Lemma entry_np_zeros (c k l : nat) :
  (k < c)%nat -> (l < c)%nat -> entry (np_zeros c c) k l = Some 0.
Proof.
  intros Hk Hl. unfold entry, np_zeros.
  rewrite nth_error_repeat by assumption. apply nth_error_repeat. assumption.
Qed.

(** A square matrix is the table of its entries. *)
Lemma square_table (c : nat) (r : matrix) (f : nat -> nat -> Q) :
  square c r ->
  (forall k l, (k < c)%nat -> (l < c)%nat -> entry r k l = Some (f k l)) ->
  r = map (fun k => map (f k) (seq 0 c)) (seq 0 c).
Proof.
  intros [Hlen Hrows] Hentry. apply nth_error_ext. intros k.
  destruct (Nat.lt_ge_cases k c) as [Hk|Hk].
  - rewrite nth_error_map, nth_error_seq_lt by assumption. cbn [option_map].
    destruct (nth_error r k) as [row|] eqn:Erow;
      [|apply nth_error_None in Erow; lia].
    f_equal. apply nth_error_ext. intros l.
    assert (Hrow : length row = c).
    { rewrite Forall_forall in Hrows. apply Hrows.
      eapply nth_error_In; eassumption. }
    destruct (Nat.lt_ge_cases l c) as [Hl|Hl].
    + rewrite nth_error_map, nth_error_seq_lt by assumption.
      cbn [option_map]. specialize (Hentry k l Hk Hl).
      unfold entry in Hentry. rewrite Erow in Hentry. exact Hentry.
    + transitivity (@None Q); [|symmetry]; apply nth_error_None.
      * lia.
      * rewrite length_map, length_seq. lia.
  - transitivity (@None (list Q)); [|symmetry]; apply nth_error_None.
    + lia.
    + rewrite length_map, length_seq. lia.
Qed.

Lemma pair_count_Permutation (X : Type) (i j : nat)
    (exs exs' : list (list X * list Q * list Q)) :
  Permutation.Permutation exs exs' -> pair_count i j exs = pair_count i j exs'.
Proof.
  unfold pair_count. induction 1 as [|ex l l' H IH|a b l|l l' l'' H1 IH1 H2 IH2];
    cbn [filter].
  - reflexivity.
  - destruct (pair_isb i j ex); cbn [length]; rewrite IH; reflexivity.
  - destruct (pair_isb i j a), (pair_isb i j b); reflexivity.
  - congruence.
Qed.

Lemma entry_np_zeros_inv (n m k l : nat) (z : Q) :
  entry (np_zeros n m) k l = Some z -> z = 0.
Proof.
  unfold entry. destruct (nth_error (np_zeros n m) k) as [row|] eqn:E;
    [|discriminate].
  apply np_zeros_row in E. subst row. intros H.
  apply nth_error_In in H. exact (repeat_spec _ _ _ H).
Qed.

(** The counting loop from zero ends exactly when every example is in
    range, and then holds the table of the pair counts. *)
Lemma count_loop_table (X : Type) (c : nat)
    (exs : list (list X * list Q * list Q)) :
  (forall r, foldM (@count_step X) exs (np_zeros c c) = Ok r ->
             Forall (in_range c) exs /\ r = counts_table c exs) /\
  (Forall (in_range c) exs ->
   foldM (@count_step X) exs (np_zeros c c) = Ok (counts_table c exs)).
Proof.
  assert (Hfwd : forall r, foldM (@count_step X) exs (np_zeros c c) = Ok r ->
                           Forall (in_range c) exs /\ r = counts_table c exs).
  { intros r Hr.
    destruct (foldM_count_step X c _ _ _ Hr
                (np_zeros_square _) (np_zeros_nonneg _ _))
      as (Hsq & _ & Hrange & _).
    split; [exact Hrange|].
    apply (square_table c r
             (fun k l => inject_Z (Z.of_nat (pair_count k l exs))) Hsq).
    intros k l Hk Hl.
    rewrite (entry_foldM_count_step X exs _ _ Hr k l).
    rewrite entry_np_zeros by assumption. cbn [option_map].
    rewrite iter_incr_zero. reflexivity. }
  split; [exact Hfwd|].
  intros Hall.
  destruct (foldM_count_step_total X c _ _
              (np_zeros_square _) (np_zeros_nonneg _ _) Hall) as (r & Hr).
  rewrite Hr. f_equal. apply (Hfwd r Hr).
Qed.

(** X1. The accumulation of [cross_category_bleeding] ends without an
    exception exactly when both categories of every visited example exist
    and are below the column count of [y_test]; the raw count at row [i],
    column [j] is then the number of examples of true category [i]
    predicted as [j]. *)
Theorem count_matrix_table (X : Type)
    (predict : list (list X) -> list (list Q)) (x_test : list (list X))
    (y_test : ndarray2) :
  (forall r, count_matrix predict x_test y_test = Ok r ->
     Forall (in_range (shape1 y_test)) (examples predict x_test y_test) /\
     r = counts_table (shape1 y_test) (examples predict x_test y_test)) /\
  (Forall (in_range (shape1 y_test)) (examples predict x_test y_test) ->
   count_matrix predict x_test y_test
   = Ok (counts_table (shape1 y_test) (examples predict x_test y_test))).
Proof.
  unfold count_matrix. apply count_loop_table.
Qed.

Lemma count_matrix_table_witness :
  count_matrix scenario_predict scenario_x scenario_y
  = Ok (counts_table 2 (examples scenario_predict scenario_x scenario_y)).
Proof.
  exact (proj2 (count_matrix_table nat scenario_predict scenario_x scenario_y)
           scenario_in_range).
Defined.

(** X2. The counting loop does not depend on the order of the examples:
    any rearrangement of the same triples gives the same count matrix. *)
Theorem count_order_irrelevant (X : Type) (c : nat)
    (exs exs' : list (list X * list Q * list Q)) (r : matrix) :
  Permutation exs exs' ->
  foldM (@count_step X) exs (np_zeros c c) = Ok r ->
  foldM (@count_step X) exs' (np_zeros c c) = Ok r.
Proof.
  intros Hperm Hr.
  destruct (proj1 (count_loop_table X c exs) r Hr) as [Hrange ->].
  rewrite (proj2 (count_loop_table X c exs')
             (Permutation_Forall Hperm Hrange)).
  f_equal. unfold counts_table.
  apply map_ext. intros i. apply map_ext. intros j.
  rewrite (pair_count_Permutation X i j exs exs' Hperm). reflexivity.
Qed.

Lemma count_order_irrelevant_witness :
  foldM (@count_step nat)
    [([2%nat], [0; 1], [0; 1]); ([1%nat], [1; 0], [0; 1])] (np_zeros 2 2)
  = Ok [[0; 1]; [0; 1]].
Proof.
  apply (count_order_irrelevant nat 2
           [([1%nat], [1; 0], [0; 1]); ([2%nat], [0; 1], [0; 1])]).
  - apply perm_swap.
  - reflexivity.
Defined.

(** ** One count per example *)

Lemma np_sum_app (a b : list Q) : np_sum (a ++ b) == np_sum a + np_sum b.
Proof.
  induction a as [|v t IH]; simpl; [ring|]. rewrite IH. ring.
Qed.

Lemma np_sum_flatten_setitem (r : matrix) :
  forall i row row',
    nth_error r i = Some row ->
    np_sum (flatten (setitem r i row'))
    == np_sum (flatten r) - np_sum row + np_sum row'.
Proof.
  unfold flatten.
  induction r as [|a t IH]; intros [|i] row row' H; simpl in H;
    try discriminate; cbn [setitem concat].
  - injection H as ->. rewrite !np_sum_app. ring.
  - rewrite !np_sum_app, (IH i row row' H). ring.
Qed.

Lemma np_sum_flatten_incr (r r' : matrix) (i j : nat) :
  incr r i j = Ok r' -> np_sum (flatten r') == np_sum (flatten r) + 1.
Proof.
  unfold incr. intros H. inv_bind H. rename a into row. inv_bind H.
  rename a into v. injection H as <-. apply getitem_Ok in Ha, Ha0.
  rewrite (np_sum_flatten_setitem r i row _ Ha).
  rewrite (np_sum_setitem row j v (v + 1) Ha0). ring.
Qed.

Lemma np_sum_flatten_foldM (X : Type)
    (exs : list (list X * list Q * list Q)) :
  forall r r',
    foldM (@count_step X) exs r = Ok r' ->
    np_sum (flatten r')
    == np_sum (flatten r) + inject_Z (Z.of_nat (length exs)).
Proof.
  induction exs as [|ex exs IH]; intros r r' H; cbn [foldM] in H.
  - injection H as <-. simpl. ring.
  - inv_bind H. rename a into r1.
    destruct (count_step_Ok X _ _ _ Ha) as (i & j & _ & _ & Hincr).
    rewrite (IH _ _ H), (np_sum_flatten_incr _ _ _ _ Hincr).
    cbn [length]. rewrite Nat2Z.inj_succ, <- Z.add_1_l, inject_Z_plus. ring.
Qed.

Lemma np_sum_flatten_zeros (n m : nat) : np_sum (flatten (np_zeros n m)) == 0.
Proof.
  unfold flatten, np_zeros. induction n as [|n IH]; simpl; [reflexivity|].
  rewrite np_sum_app, IH, np_sum_repeat_zero. ring.
Qed.

(** X3. Every visited example is counted exactly once: the entries of the
    raw count matrix add up to the number of examples of the zip. *)
Theorem count_matrix_total (X : Type)
    (predict : list (list X) -> list (list Q)) (x_test : list (list X))
    (y_test : ndarray2) (r : matrix) :
  count_matrix predict x_test y_test = Ok r ->
  np_sum (flatten r)
  == inject_Z (Z.of_nat (length (examples predict x_test y_test))).
Proof.
  unfold count_matrix. intros H.
  rewrite (np_sum_flatten_foldM X _ _ _ H), np_sum_flatten_zeros. ring.
Qed.

Lemma count_matrix_total_witness :
  np_sum (flatten [[1; 1]; [0; 2]])
  == inject_Z (Z.of_nat
                 (length (examples scenario_predict scenario_x scenario_y))).
Proof.
  exact (count_matrix_total nat scenario_predict scenario_x scenario_y
           [[1; 1]; [0; 2]] eq_refl).
Defined.

(** ** The entries of the returned matrix *)

Lemma inject_nat_zero (n : nat) : inject_Z (Z.of_nat n) == 0 -> n = 0%nat.
Proof.
  unfold Qeq. simpl. lia.
Qed.

(** Each entry of the normalized counts is the fraction of the examples of
    its true category that were predicted as its column. *)
Lemma fraction_entry (X : Type) (c : nat)
    (exs : list (list X * list Q * list Q)) (r : matrix) :
  foldM (@count_step X) exs (np_zeros c c) = Ok r ->
  forall i j v,
    entry (map normalized_row r) i j = Some v ->
    (true_count i exs = 0%nat -> v == 0) /\
    (true_count i exs <> 0%nat ->
     v == inject_Z (Z.of_nat (pair_count i j exs))
          / inject_Z (Z.of_nat (true_count i exs))).
Proof.
  intros Hr i j v Hv.
  destruct (foldM_count_step X c _ _ _ Hr
              (np_zeros_square _) (np_zeros_nonneg _ _))
    as (_ & _ & _ & Hsum).
  pose proof (entry_foldM_count_step X exs _ _ Hr i j) as Hent.
  unfold entry in Hv, Hent. rewrite nth_error_map in Hv.
  destruct (nth_error r i) as [a|] eqn:Ea; [|discriminate].
  cbn [option_map] in Hv. unfold normalized_row in Hv.
  rewrite nth_error_map in Hv.
  destruct (nth_error a j) as [w|] eqn:Ew; [|discriminate].
  cbn [option_map] in Hv. injection Hv as <-.
  destruct (Hsum i a Ea) as (row0 & Hrow0 & Es).
  rewrite Hrow0 in Hent.
  destruct (nth_error row0 j) as [z|] eqn:Ez; [|discriminate].
  assert (Hz : z = 0).
  { apply (entry_np_zeros_inv c c i j). unfold entry. rewrite Hrow0. exact Ez. }
  subst z. cbn [option_map] in Hent. rewrite iter_incr_zero in Hent.
  injection Hent as ->.
  apply np_zeros_row in Hrow0. subst row0.
  rewrite np_sum_repeat_zero, Qplus_0_l in Es.
  assert (Hle : (pair_count i j exs <= true_count i exs)%nat).
  { unfold pair_count, true_count. clear.
    induction exs as [|ex exs IH]; cbn [filter]; [lia|].
    unfold pair_isb at 1, true_categoryb at 1.
    destruct (np_argmax (snd (fst ex))) as [a|]; [|exact IH].
    destruct (np_argmax (snd ex)) as [b|]; [|destruct (a =? i)%nat; simpl; lia].
    rewrite (Nat.eqb_sym i a).
    destruct (a =? i)%nat, (j =? b)%nat; simpl; lia. }
  split; intros Htc.
  - replace (pair_count i j exs) with 0%nat by lia. reflexivity.
  - destruct (truthy (inject_Z (Z.of_nat (pair_count i j exs)))) eqn:Et.
    + rewrite Es. reflexivity.
    + apply truthy_false in Et. rewrite Et. unfold Qdiv. ring.
Qed.

(** X4. When [cross_category_bleeding] returns, its entry at row [i],
    column [j] is the number of visited examples of true category [i]
    predicted as [j] divided by the number of examples of true category [i],
    and 0 when there is no such example. *)
Theorem cross_category_bleeding_fractions (X : Type)
    (predict : list (list X) -> list (list Q))
    (np : numpy_version) (x_test : list (list X))
    (y_test : ndarray2) (batch_size : Z) (m : matrix) :
  cross_category_bleeding predict np x_test y_test batch_size = Ok m ->
  forall i j v,
    entry m i j = Some v ->
    (true_count i (examples predict x_test y_test) = 0%nat -> v == 0) /\
    (true_count i (examples predict x_test y_test) <> 0%nat ->
     v == inject_Z (Z.of_nat
                      (pair_count i j (examples predict x_test y_test)))
          / inject_Z (Z.of_nat
                        (true_count i (examples predict x_test y_test)))).
Proof.
  intros H.
  destruct (cross_category_bleeding_Ok _ _ _ _ _ _ _ H)
    as (r & Hr & _ & _ & _ & -> & _).
  exact (fraction_entry X (shape1 y_test) _ r Hr).
Qed.

Lemma cross_category_bleeding_fractions_witness :
  (1 # 2) == inject_Z (Z.of_nat
               (pair_count 0 1 (examples scenario_predict scenario_x scenario_y)))
             / inject_Z (Z.of_nat
               (true_count 0 (examples scenario_predict scenario_x scenario_y))).
Proof.
  apply (proj2 (cross_category_bleeding_fractions nat scenario_predict
                  numpy_before_1_25 scenario_x scenario_y 32
                  [[1 # 2; 1 # 2]; [0; 2 # 2]]
                  eq_refl 0%nat 1%nat (1 # 2) eq_refl)).
  discriminate.
Defined.

Lemma Forall2_nth_error {A B : Type} (R : A -> B -> Prop) (l : list A) :
  forall l',
    length l = length l' ->
    (forall k a b, nth_error l k = Some a -> nth_error l' k = Some b -> R a b) ->
    Forall2 R l l'.
Proof.
  induction l as [|a t IH]; intros [|b t'] Hlen H; simpl in Hlen;
    try discriminate; constructor.
  - apply (H 0%nat); reflexivity.
  - apply IH; [lia|]. intros k x y Hx Hy. apply (H (S k)); assumption.
Qed.

(** A square matrix with the entries of a table equals the table. *)
Lemma mat_eq_table (c : nat) (m : matrix) (f : nat -> nat -> Q) :
  square c m ->
  (forall k l v, (k < c)%nat -> (l < c)%nat ->
                 entry m k l = Some v -> v == f k l) ->
  mat_eq m (map (fun k => map (f k) (seq 0 c)) (seq 0 c)).
Proof.
  intros [Hlen Hrows] H. apply Forall2_nth_error.
  - rewrite length_map, length_seq. exact Hlen.
  - intros k row row' Hrow Hrow'.
    assert (Hk : (k < c)%nat) by (rewrite <- Hlen; apply nth_error_Some; congruence).
    rewrite nth_error_map, nth_error_seq_lt in Hrow' by assumption.
    injection Hrow' as <-.
    assert (Hl : length row = c).
    { rewrite Forall_forall in Hrows. apply Hrows.
      eapply nth_error_In; eassumption. }
    apply Forall2_nth_error.
    + rewrite length_map, length_seq. exact Hl.
    + intros l v w Hv Hw.
      assert (Hlc : (l < c)%nat)
        by (rewrite <- Hl; apply nth_error_Some; congruence).
      rewrite nth_error_map, nth_error_seq_lt in Hw by assumption.
      injection Hw as <-. apply (H k l v Hk Hlc).
      unfold entry. rewrite Hrow. exact Hv.
Qed.

Lemma pair_count_correct (X : Type) (i j : nat)
    (exs : list (list X * list Q * list Q)) :
  Forall correct exs ->
  pair_count i j exs = if (i =? j)%nat then true_count i exs else 0%nat.
Proof.
  unfold pair_count, true_count.
  induction 1 as [|ex exs Hex Hexs IH]; cbn [filter].
  - destruct (i =? j)%nat; reflexivity.
  - unfold pair_isb at 1, true_categoryb at 1. unfold correct in Hex.
    rewrite Hex. destruct (np_argmax (snd (fst ex))) as [a|].
    + rewrite (Nat.eqb_sym a i).
      destruct (Nat.eqb_spec i j) as [->|Hij].
      * rewrite Bool.andb_diag. destruct (j =? a)%nat; cbn [length];
          rewrite IH; reflexivity.
      * destruct (Nat.eqb_spec i a) as [->|Hia]; cbn [andb]; [|exact IH].
        replace (j =? a)%nat with false
          by (symmetry; apply Nat.eqb_neq; congruence).
        exact IH.
    + destruct (i =? j)%nat; exact IH.
Qed.

(** The normalized counts of a classifier that is always right. *)
Lemma perfect_counts_identity (X : Type) (c : nat)
    (exs : list (list X * list Q * list Q)) (r : matrix) :
  foldM (@count_step X) exs (np_zeros c c) = Ok r ->
  Forall correct exs ->
  (forall i, (i < c)%nat -> Exists (true_category i) exs) ->
  mat_eq (map normalized_row r) (np_eye c).
Proof.
  intros Hr Hcorrect Hall.
  destruct (foldM_count_step X c _ _ _ Hr
              (np_zeros_square _) (np_zeros_nonneg _ _)) as (Hsq & _).
  apply mat_eq_table; [apply normalized_square; exact Hsq|].
  intros k l v Hk Hl Hv.
  destruct (fraction_entry X _ _ r Hr k l v Hv) as [_ Hfrac].
  assert (Htc : true_count k exs <> 0%nat).
  { intros E. apply true_count_zero in E. apply E, Hall, Hk. }
  rewrite (Hfrac Htc), (pair_count_correct X k l _ Hcorrect).
  assert (Hne : ~ inject_Z (Z.of_nat (true_count k exs)) == 0).
  { intros E. apply Htc, inject_nat_zero, E. }
  destruct (k =? l)%nat.
  - field. exact Hne.
  - unfold Qdiv. simpl inject_Z. ring.
Qed.

(** X5. When every visited example is predicted as its true category and
    every category below the column count has an example, a matrix that
    [cross_category_bleeding] returns is the identity, on any numpy; and
    on a numpy that accepts a generator in [np.stack] (before 1.25) the
    function does return, provided every example is in range and there is
    at least one label column. *)
Theorem perfect_classifier_identity (X : Type)
    (predict : list (list X) -> list (list Q)) (x_test : list (list X))
    (y_test : ndarray2) (batch_size : Z) :
  Forall correct (examples predict x_test y_test) ->
  (forall i, (i < shape1 y_test)%nat ->
             Exists (true_category i) (examples predict x_test y_test)) ->
  (forall np m,
      cross_category_bleeding predict np x_test y_test batch_size = Ok m ->
      mat_eq m (np_eye (shape1 y_test))) /\
  ((0 < shape1 y_test)%nat ->
   Forall (in_range (shape1 y_test)) (examples predict x_test y_test) ->
   exists m,
     cross_category_bleeding predict numpy_before_1_25 x_test y_test
       batch_size = Ok m /\
     mat_eq m (np_eye (shape1 y_test))).
Proof.
  intros Hcorrect Hall. split.
  - intros np m H.
    destruct (cross_category_bleeding_Ok _ _ _ _ _ _ _ H)
      as (r & Hr & _ & _ & _ & -> & _).
    exact (perfect_counts_identity X _ _ r Hr Hcorrect Hall).
  - intros Hc Hrange.
    destruct (cross_category_bleeding_total X predict x_test y_test batch_size
                Hc Hrange) as (r & Hr & Hm).
    exists (map normalized_row r). split; [exact Hm|].
    exact (perfect_counts_identity X _ _ r Hr Hcorrect Hall).
Qed.

Lemma perfect_classifier_identity_witness :
  exists m,
    cross_category_bleeding perfect_predict numpy_before_1_25 perfect_x perfect_y 32 = Ok m /\
    mat_eq m (np_eye 2).
Proof.
  apply (proj2 (perfect_classifier_identity nat perfect_predict perfect_x
                  perfect_y 32
                  ltac:(repeat constructor)
                  ltac:(intros [|[|i]] Hi; simpl in Hi; try lia;
                        [left; reflexivity | right; left; reflexivity]))).
  - simpl. lia.
  - repeat constructor; simpl;
      [ exists 0%nat, 0%nat | exists 1%nat, 1%nat ];
      split_and; (reflexivity || lia).
Defined.

(** ** The zip of inputs, labels and predictions *)

Lemma zip3_length {A B C : Type} (xs : list A) :
  forall (ys : list B) (zs : list C),
    length (zip3 xs ys zs)
    = Nat.min (length xs) (Nat.min (length ys) (length zs)).
Proof.
  induction xs as [|x xs IH]; intros [|y ys] [|z zs]; simpl; try lia.
  rewrite IH. reflexivity.
Qed.

Lemma zip3_firstn {A B C : Type} (xs : list A) :
  forall (ys : list B) (zs : list C),
    zip3 xs (firstn (length xs) ys) (firstn (length xs) zs) = zip3 xs ys zs.
Proof.
  induction xs as [|x xs IH]; intros [|y ys] [|z zs]; simpl; try reflexivity.
  rewrite IH. reflexivity.
Qed.

(** X6. No length is checked: the loop visits as many examples as the
    shortest of the inputs, the label rows and the predictions, and label
    rows or predictions beyond the number of inputs never change the
    result. *)
Theorem surplus_rows_ignored (X : Type)
    (predict : list (list X) -> list (list Q))
    (np : numpy_version) (x_test : list (list X))
    (y_test : ndarray2) (batch_size : Z) :
  length (examples predict x_test y_test)
  = Nat.min (length x_test)
      (Nat.min (length (rows y_test)) (length (predict x_test))) /\
  cross_category_bleeding predict np x_test y_test batch_size
  = cross_category_bleeding
      (fun xs => firstn (length xs) (predict xs)) np x_test
      (mk_ndarray2 (shape1 y_test) (firstn (length x_test) (rows y_test)))
      batch_size.
Proof.
  split; [apply zip3_length|].
  unfold cross_category_bleeding, count_matrix, examples. cbn [shape1 rows].
  rewrite zip3_firstn. reflexivity.
Qed.

(** ** The exception of the first example out of range *)

Lemma foldM_app {A S : Type} (f : S -> A -> result S) (l1 l2 : list A) :
  forall s, foldM f (l1 ++ l2) s = bind (foldM f l1 s) (foldM f l2).
Proof.
  induction l1 as [|a t IH]; intros s; simpl; [reflexivity|].
  destruct (f s a) as [s'|e]; simpl; [apply IH | reflexivity].
Qed.

Lemma incr_out_of_range (c : nat) (r : matrix) (i j : nat) :
  square c r -> (c <= i)%nat \/ (c <= j)%nat -> incr r i j = Error IndexError.
Proof.
  intros [Hlen Hrows] Hout. unfold incr, getitem.
  destruct (nth_error r i) as [row|] eqn:Erow; [|reflexivity].
  cbn [bind].
  assert (Hrow : length row = c).
  { rewrite Forall_forall in Hrows. apply Hrows.
    eapply nth_error_In; eassumption. }
  assert (Hi : (i < c)%nat) by (rewrite <- Hlen; apply nth_error_Some; congruence).
  destruct (nth_error row j) as [v|] eqn:Ev; [|reflexivity].
  assert (Hj : (j < c)%nat) by (rewrite <- Hrow; apply nth_error_Some; congruence).
  lia.
Qed.

(** X7. The first visited example that is out of range decides the
    exception: [ValueError] when its label vector is empty, or else its
    predicted vector is, and [IndexError] when one of its two categories is
    not below the column count of [y_test]. *)
Theorem first_bad_example (X : Type)
    (predict : list (list X) -> list (list Q))
    (np : numpy_version) (x_test : list (list X))
    (y_test : ndarray2) (batch_size : Z)
    (pre post : list (list X * list Q * list Q))
    (x : list X) (y pred : list Q) :
  examples predict x_test y_test = pre ++ (x, y, pred) :: post ->
  Forall (in_range (shape1 y_test)) pre ->
  (y = [] \/ pred = [] ->
   cross_category_bleeding predict np x_test y_test batch_size
   = Error ValueError) /\
  (forall i j, np_argmax y = Ok i -> np_argmax pred = Ok j ->
     (shape1 y_test <= i)%nat \/ (shape1 y_test <= j)%nat ->
     cross_category_bleeding predict np x_test y_test batch_size
     = Error IndexError).
Proof.
  intros Hexs Hpre.
  destruct (foldM_count_step_total X (shape1 y_test) pre _
              (np_zeros_square _) (np_zeros_nonneg _ _) Hpre) as (r & Hr).
  destruct (foldM_count_step X (shape1 y_test) _ _ _ Hr
              (np_zeros_square _) (np_zeros_nonneg _ _)) as (Hsq & _).
  unfold cross_category_bleeding, count_matrix.
  rewrite Hexs, foldM_app, Hr. cbn [bind foldM]. unfold count_step.
  split.
  - intros [-> | ->]; [reflexivity|].
    destruct y; reflexivity.
  - intros i j Hi Hj Hout. rewrite Hi, Hj. cbn [bind].
    rewrite (incr_out_of_range _ r i j Hsq Hout). reflexivity.
Qed.

Lemma first_bad_example_witness :
  cross_category_bleeding wide_predict numpy_before_1_25 [[7%nat]] one_example_y 32
  = Error IndexError.
Proof.
  apply (proj2 (first_bad_example nat wide_predict numpy_before_1_25
                  [[7%nat]] one_example_y 32
                  [] [] [7%nat] [1; 0] [0; 0; 1] eq_refl (Forall_nil _))
           0%nat 2%nat eq_refl eq_refl).
  right. simpl. lia.
Defined.

(** * Further properties of [graphviz_cross_category_diagram] *)

Lemma node_name_inj : Injective node_name.
Proof.
  intros a b H. unfold node_name in H. simpl in H. injection H as H.
  apply str_inj, H.
Qed.

(** X9. The nodes of the graph are [C0], [C1], ... in the order of the
    rows of the matrix, and no node name is declared twice. *)
Theorem diagram_node_names {N : Type} {num : Number N}
    (m : list (list N)) (class_labels : list string) :
  exists g,
    graphviz_cross_category_diagram m class_labels = Ok g /\
    map fst (nodes g) = map node_name (seq 0 (length m)) /\
    NoDup (map fst (nodes g)).
Proof.
  exists (graph_rows class_labels 0 m).
  split; [apply graphviz_cross_category_diagram_Ok|].
  rewrite nodes_graph_rows, map_map. cbn [fst].
  split; [reflexivity|].
  apply Injective_map_NoDup; [exact node_name_inj | apply seq_NoDup].
Qed.

(** X10. Every edge of the graph of a matrix of binary64 numbers comes
    from an entry above zero: it leaves the node of the entry's row, which
    is declared, enters the node of the entry's column, and is labelled
    with the formatted product of the entry and [100.0]; when no row is
    longer than the number of rows, the node it enters is declared too. *)
Theorem diagram_edges_sound (m : list (list float))
    (class_labels : list string) :
  exists g,
    graphviz_cross_category_diagram m class_labels = Ok g /\
    forall t h l,
      In (t, h, l) (edges g) ->
      (exists i j row v,
          nth_error m i = Some row /\ nth_error row j = Some v /\
          PrimFloat.ltb 0 v = true /\
          PrimFloat.ltb 0 (PrimFloat.mul v 100) = true /\
          t = node_name i /\ h = node_name j /\
          l = format_pct (PrimFloat.mul v 100)) /\
      In t (map fst (nodes g)) /\
      (Forall (fun row => (length row <= length m)%nat) m ->
       In h (map fst (nodes g))).
Proof.
  exists (graph_rows class_labels 0 m).
  split; [apply graphviz_cross_category_diagram_Ok|].
  intros t h l Hin.
  destruct (in_edges_graph_rows class_labels m 0%nat t h l Hin)
    as (i & j & row & v & _ & Hrow & Hv & -> & -> & Hpos & ->).
  rewrite Nat.sub_0_r in Hrow.
  assert (Hi : (i < length m)%nat) by (apply nth_error_Some; congruence).
  assert (Hj : (j < length row)%nat) by (apply nth_error_Some; congruence).
  rewrite nodes_graph_rows, map_map. cbn [fst].
  split_and.
  - exists i, j, row, v. split_and; auto.
    rewrite float_times100_gt0 in Hpos. exact Hpos.
  - apply in_map, in_seq. lia.
  - intros Hrows. apply in_map, in_seq.
    rewrite Forall_forall in Hrows.
    pose proof (Hrows row (nth_error_In _ _ Hrow)). lia.
Qed.

Lemma diagram_edges_sound_witness :
  exists g,
    graphviz_cross_category_diagram [[0.5; 0.5]; [0; 1]]%float [] = Ok g /\
    forall t h l, In (t, h, l) (edges g) ->
                  In t (map fst (nodes g)) /\ In h (map fst (nodes g)).
Proof.
  destruct (diagram_edges_sound [[0.5; 0.5]; [0; 1]]%float [])
    as (g & Hg & Hedges).
  exists g. split; [exact Hg|]. intros t h l Hin.
  destruct (Hedges t h l Hin) as (_ & Ht & Hh).
  split; [exact Ht|]. apply Hh. repeat constructor.
Defined.

(** * The matrix of [cross_category_bleeding] as a diagram *)

Lemma pair_count_le_true_count (X : Type) (i j : nat)
    (exs : list (list X * list Q * list Q)) :
  (pair_count i j exs <= true_count i exs)%nat.
Proof.
  unfold pair_count, true_count.
  induction exs as [|ex exs IH]; cbn [filter]; [lia|].
  unfold pair_isb at 1, true_categoryb at 1.
  destruct (np_argmax (snd (fst ex))) as [a|]; [|exact IH].
  destruct (np_argmax (snd ex)) as [b|]; [|destruct (a =? i)%nat; simpl; lia].
  rewrite (Nat.eqb_sym i a).
  destruct (a =? i)%nat, (j =? b)%nat; simpl; lia.
Qed.

Lemma inject_nat_pos_iff (n : nat) :
  0 < inject_Z (Z.of_nat n) <-> n <> 0%nat.
Proof.
  unfold Qlt. simpl. lia.
Qed.

(** An entry of the returned matrix is positive exactly when its pair of
    categories was counted. *)
Lemma fraction_positive (X : Type) (c : nat)
    (exs : list (list X * list Q * list Q)) (r : matrix) (i j : nat) (v : Q) :
  foldM (@count_step X) exs (np_zeros c c) = Ok r ->
  entry (map normalized_row r) i j = Some v ->
  0 < v <-> pair_count i j exs <> 0%nat.
Proof.
  intros Hr Hv.
  destruct (fraction_entry X c exs r Hr i j v Hv) as [Hzero Hfrac].
  pose proof (pair_count_le_true_count X i j exs) as Hle.
  destruct (Nat.eq_dec (true_count i exs) 0) as [Htc|Htc].
  - rewrite (Hzero Htc). split; intros H.
    + destruct (Qlt_irrefl 0 H).
    + lia.
  - rewrite (Hfrac Htc).
    assert (Hpos : 0 < inject_Z (Z.of_nat (true_count i exs)))
      by (apply inject_nat_pos_iff; exact Htc).
    split; intros H.
    + intros E. rewrite E in H. simpl inject_Z in H.
      unfold Qdiv in H. rewrite Qmult_0_l in H. exact (Qlt_irrefl 0 H).
    + apply Qlt_shift_div_l; [exact Hpos|]. rewrite Qmult_0_l.
      apply inject_nat_pos_iff. exact H.
Qed.

(** X11. Rendering the matrix that [cross_category_bleeding] returns gives
    one node per label column, and between the nodes of two categories
    [i] and [j] there is an edge exactly when some visited example of true
    category [i] was predicted as [j]. *)
Theorem bleeding_diagram_edges (X : Type)
    (predict : list (list X) -> list (list Q))
    (np : numpy_version) (x_test : list (list X))
    (y_test : ndarray2) (batch_size : Z) (m : matrix)
    (class_labels : list string) :
  cross_category_bleeding predict np x_test y_test batch_size = Ok m ->
  exists g,
    graphviz_cross_category_diagram m class_labels = Ok g /\
    length (nodes g) = shape1 y_test /\
    forall i j, (i < shape1 y_test)%nat -> (j < shape1 y_test)%nat ->
      (edges_between g (node_name i) (node_name j) = [] <->
       pair_count i j (examples predict x_test y_test) = 0%nat).
Proof.
  intros H.
  destruct (cross_category_bleeding_Ok _ _ _ _ _ _ _ H)
    as (r & Hr & Hsq & _ & _ & -> & _).
  pose proof (normalized_square _ r Hsq) as [Hlen Hrows].
  exists (graph_rows class_labels 0 (map normalized_row r)).
  split; [apply graphviz_cross_category_diagram_Ok|].
  split; [rewrite nodes_graph_rows, length_map, length_seq; exact Hlen|].
  intros i j Hi Hj.
  rewrite edges_between_graph_rows. change (0 <=? i)%nat with true.
  cbv iota. rewrite Nat.sub_0_r.
  destruct (getitem_lt (map normalized_row r) i) as (row & _ & Hrow); [lia|].
  assert (Hl : length row = shape1 y_test).
  { rewrite Forall_forall in Hrows. apply Hrows.
    eapply nth_error_In; eassumption. }
  destruct (getitem_lt row j) as (v & _ & Hv); [lia|].
  rewrite Hrow, Hv.
  assert (Hent : entry (map normalized_row r) i j = Some v)
    by (unfold entry; rewrite Hrow; exact Hv).
  pose proof (fraction_positive X _ _ r i j v Hr Hent) as Hiff.
  unfold entry_edge. rewrite Q_times100_gt0.
  cbn [gt0 Q_number]. unfold positive.
  destruct (Qle_bool v 0) eqn:E; cbn [negb].
  - split; [|reflexivity]. intros _.
    apply Qle_bool_iff in E.
    destruct (Nat.eq_dec (pair_count i j (examples predict x_test y_test)) 0)
      as [E0|E0]; [exact E0|].
    apply Hiff in E0. destruct (Qlt_not_le _ _ E0 E).
  - split; [discriminate|]. intros E0. exfalso.
    assert (Hpos : 0 < v).
    { apply Qnot_le_lt. intros Hle. apply Qle_bool_iff in Hle. congruence. }
    apply Hiff in Hpos. contradiction.
Qed.

Lemma bleeding_diagram_edges_witness :
  exists g,
    graphviz_cross_category_diagram [[1 # 2; 1 # 2]; [0; 2 # 2]] [] = Ok g /\
    edges_between g (node_name 1) (node_name 0) = [].
Proof.
  destruct (bleeding_diagram_edges nat scenario_predict numpy_before_1_25
              scenario_x scenario_y 32 [[1 # 2; 1 # 2]; [0; 2 # 2]] [] eq_refl)
    as (g & Hg & _ & Hedges).
  exists g. split; [exact Hg|].
  apply (Hedges 1%nat 0%nat); simpl; (lia || reflexivity).
Defined.

(** * Further properties of the rows of the plot *)

Lemma firstn_snoc {A : Type} (x : list A) (a : A) (k : nat) :
  (k <= length x)%nat -> firstn k (x ++ [a]) = firstn k x.
Proof.
  intros H. rewrite firstn_app.
  replace (k - length x)%nat with 0%nat by lia.
  cbn [firstn]. apply app_nil_r.
Qed.

(** X12. The last element of the input sequence is never shown to the
    classifier: two sequences that differ only in it give the same rows. *)
Theorem last_element_unused (X : Type)
    (predict : list (list X) -> list (list Q)) (partnum : string)
    (x : list X) (a b : X) :
  step_preds predict partnum (x ++ [a])
  = step_preds predict partnum (x ++ [b]).
Proof.
  rewrite !step_preds_Ok, !length_app. cbn [length]. f_equal.
  apply map_ext_in. intros k Hk. apply in_seq in Hk.
  rewrite !firstn_snoc by lia. reflexivity.
Qed.

Lemma concat_empty_cons (s : string) (ls : list string) :
  String.concat "" (s :: ls) = (s ++ String.concat "" ls)%string.
Proof.
  destruct ls as [|t ls]; cbn [String.concat]; [|reflexivity].
  induction s as [|ch s IH]; simpl; [reflexivity|]. rewrite <- IH. reflexivity.
Qed.

Lemma substring_step (p : string) :
  forall s n,
    substring s (S n) p = (char_or_empty p s ++ substring (S s) n p)%string.
Proof.
  unfold char_or_empty.
  induction p as [|ch p IH]; intros [|s] [|n]; cbn [substring get];
    try reflexivity; apply IH.
Qed.

Lemma concat_chars (p : string) (n : nat) :
  forall s,
    String.concat "" (map (char_or_empty p) (seq s n)) = substring s n p.
Proof.
  induction n as [|n IH]; intros s.
  - simpl. revert s. induction p as [|ch p IHp]; intros [|s]; simpl; auto.
  - cbn [seq map]. rewrite concat_empty_cons, IH, substring_step. reflexivity.
Qed.

(** X13. Read from top to bottom, the character column of the rows spells
    the partial label cut to [len(x) - 1] characters; characters of the
    label from index [len(x) - 1] on never appear. *)
Theorem step_preds_chars (X : Type)
    (predict : list (list X) -> list (list Q)) (partnum : string)
    (x : list X) :
  exists rows,
    step_preds predict partnum x = Ok rows /\
    String.concat "" (map fst rows) = substring 0 (length x - 1) partnum.
Proof.
  eexists. split; [apply step_preds_Ok|].
  rewrite map_map. cbn [fst]. apply concat_chars.
Qed.

(** X14. An input sequence of fewer than two elements gives no row at
    all. *)
Theorem step_preds_short (X : Type)
    (predict : list (list X) -> list (list Q)) (partnum : string)
    (x : list X) :
  (length x <= 1)%nat -> step_preds predict partnum x = Ok [].
Proof.
  intros H. rewrite step_preds_Ok.
  replace (length x - 1)%nat with 0%nat by lia. reflexivity.
Qed.

Lemma step_preds_short_witness :
  step_preds (fun b : list (list nat) => map (fun _ => [1]) b) "ab" [7%nat]
  = Ok [].
Proof.
  apply step_preds_short. simpl. lia.
Defined.

Example step_preds_chars_example :
  exists rows,
    step_preds (fun b : list (list nat) => map (fun _ => [1]) b)
      "R10K" [1; 2; 3]%nat = Ok rows /\
    String.concat "" (map fst rows) = "R1"%string.
Proof.
  eexists. split; reflexivity.
Qed.

(** * Preconditions on the widths alone *)

Lemma zip3_In {A B C : Type} (xs : list A) :
  forall (ys : list B) (zs : list C) x y z,
    In (x, y, z) (zip3 xs ys zs) -> In x xs /\ In y ys /\ In z zs.
Proof.
  induction xs as [|a xs IH]; intros [|b ys] [|c zs] x y z H; simpl in H;
    try contradiction.
  destruct H as [H|H].
  - injection H as <- <- <-. simpl. auto.
  - destruct (IH ys zs x y z H) as (Hx & Hy & Hz). simpl. auto.
Qed.

Lemma np_argmax_lt (l : list Q) :
  l <> [] -> exists i, np_argmax l = Ok i /\ (i < length l)%nat.
Proof.
  intros H. destruct (np_argmax_total l H) as (i & Hi & m & Hm & _).
  exists i. split; [exact Hi|]. apply nth_error_Some. congruence.
Qed.

(** X15. With a label array of at least one column whose rows all have
    that many entries, and predicted vectors that are not empty and no
    wider than the label rows, the accumulation raises nothing; the whole
    function then returns a square matrix of the dimension of the label
    columns on a numpy that accepts a generator in [np.stack] (before
    1.25), and raises [TypeError] on a later one. *)
Theorem returns_for_fitting_widths (X : Type)
    (predict : list (list X) -> list (list Q)) (x_test : list (list X))
    (y_test : ndarray2) (batch_size : Z) :
  (0 < shape1 y_test)%nat ->
  wf_ndarray2 y_test ->
  Forall (fits (shape1 y_test)) (examples predict x_test y_test) ->
  (exists r, count_matrix predict x_test y_test = Ok r) /\
  (exists m,
      cross_category_bleeding predict numpy_before_1_25 x_test y_test
        batch_size = Ok m /\
      square (shape1 y_test) m) /\
  cross_category_bleeding predict numpy_from_1_25 x_test y_test batch_size
  = Error TypeError.
Proof.
  intros Hc Hwf Hfits.
  assert (Hrange : Forall (in_range (shape1 y_test))
                     (examples predict x_test y_test)).
  { apply Forall_forall. intros [[x y] pred] Hin.
    rewrite Forall_forall in Hfits. destruct (Hfits _ Hin) as [Hne Hw].
    apply zip3_In in Hin. destruct Hin as (_ & Hy & _).
    unfold wf_ndarray2 in Hwf. rewrite Forall_forall in Hwf.
    pose proof (Hwf y Hy) as Hly. cbn [snd fst] in *.
    destruct (np_argmax_lt y) as (i & Hi & Hil).
    { intros ->. simpl in Hly. lia. }
    destruct (np_argmax_lt pred Hne) as (j & Hj & Hjl).
    exists i, j. cbn [snd fst]. split_and; auto; lia. }
  destruct (cross_category_bleeding_total X predict x_test y_test batch_size
              Hc Hrange) as (r & Hr & Hm).
  pose proof Hr as Hr'. unfold count_matrix in Hr'.
  destruct (foldM_count_step X (shape1 y_test) _ _ _ Hr'
              (np_zeros_square _) (np_zeros_nonneg _ _)) as (Hsq & _).
  split_and.
  - exists r. exact Hr.
  - exists (map normalized_row r). split; [exact Hm|].
    apply normalized_square. exact Hsq.
  - unfold cross_category_bleeding. rewrite Hr. cbn [bind].
    apply normalize_refused; assumption.
Qed.

Lemma returns_for_fitting_widths_witness :
  exists m,
    cross_category_bleeding scenario_predict numpy_before_1_25 scenario_x
      scenario_y 32 = Ok m /\
    square 2 m.
Proof.
  apply (returns_for_fitting_widths nat scenario_predict scenario_x
           scenario_y 32).
  - simpl. lia.
  - repeat constructor.
  - repeat constructor; simpl; (discriminate || lia).
Defined.

(** * The diagram of the identity matrix *)

Lemma format_pct_one : format_pct (times100 (1 : Q)) = "100.000%"%string.
Proof. reflexivity. Qed.

Lemma edges_eye_row (i n : nat) :
  forall s,
    edges (row_edges i s
             (map (fun j => if (i =? j)%nat then 1 else 0) (seq s n)))
    = if ((s <=? i) && (i <? s + n))%nat then [self_loop i] else [].
Proof.
  induction n as [|n IH]; intros s; cbn [seq map row_edges].
  - destruct (Nat.leb_spec s i), (Nat.ltb_spec i (s + 0)); try reflexivity; lia.
  - rewrite edges_app, IH.
    destruct (Nat.eqb_spec i s) as [->|Hne].
    + change (gt0 (times100 (1 : Q))) with true. cbv iota.
      rewrite format_pct_one.
      destruct (Nat.leb_spec (S s) s); [lia|].
      destruct (Nat.leb_spec s s); [|lia].
      destruct (Nat.ltb_spec s (s + S n)); [|lia].
      reflexivity.
    + change (gt0 (times100 (0 : Q))) with false. cbv iota. cbn [edges flat_map app].
      destruct (Nat.leb_spec (S s) i), (Nat.ltb_spec i (S s + n)),
        (Nat.leb_spec s i), (Nat.ltb_spec i (s + S n));
        try reflexivity; lia.
Qed.

Lemma edges_eye_rows (class_labels : list string) (c n : nat) :
  forall s, (s + n <= c)%nat ->
    edges (graph_rows class_labels s
             (map (fun i => map (fun j => if (i =? j)%nat then 1 else 0)
                              (seq 0 c))
                (seq s n)))
    = map self_loop (seq s n).
Proof.
  induction n as [|n IH]; intros s Hs; cbn [seq map graph_rows];
    [reflexivity|].
  change (Node (node_name s) (label_of class_labels s) :: ?a ++ ?b)
    with ([Node (node_name s) (label_of class_labels s)] ++ a ++ b).
  rewrite !edges_app, edges_eye_row, IH by lia.
  cbn [edges flat_map app].
  destruct (Nat.leb_spec 0 s); [|lia].
  destruct (Nat.ltb_spec s (0 + c)); [|lia]. reflexivity.
Qed.

(** X16. The identity matrix of any dimension is drawn as one loop per
    category, labelled [100.000%], and no edge between two different
    categories. *)
Theorem diagram_identity_loops (c : nat) (class_labels : list string) :
  exists g,
    graphviz_cross_category_diagram (np_eye c) class_labels = Ok g /\
    edges g = map self_loop (seq 0 c).
Proof.
  exists (graph_rows class_labels 0 (np_eye c)).
  split; [apply graphviz_cross_category_diagram_Ok|].
  unfold np_eye. apply edges_eye_rows. lia.
Qed.
